(** * browserslist-useragent: a shallow embedding of [src/index.js]

    The development follows the source file top to bottom:

    - [JS]      the fragment of JavaScript's string and number library that
                the file uses ([split], [join], [includes], [indexOf],
                [trim], [toLowerCase], [parseInt], number printing);
    - [semver]  the operations of the [semver] package that the file calls
                ([valid], [parse], [gte], [inc], [satisfies]);
    - the functions of [src/index.js] themselves, under their own names;
    - the theorems, one block per property.

    Strings are [String.string]; a character of code below 256 stands for
    the UTF-16 code unit of the same code.  A call that can raise returns an
    [outcome]. *)

From Stdlib Require Import String Ascii List ZArith NArith Lia Bool.
From Stdlib Require Import Decimal DecimalString DecimalN DecimalFacts.
Import ListNotations.

Local Open Scope string_scope.
Local Open Scope list_scope.

(* ================================================================= *)
(** ** Outcomes of a call *)

(** [Returns a]: the call returns [a].  [Throws]: an exception leaves the
    call (every exception that can arise in this file is a [TypeError]).
    [Unmodelled]: the call reached a part of the [semver] package that this
    development does not describe, or a value that is not a string of
    characters below code 256 where the development has such a string;
    nothing is claimed about it.
    [OutOfFuel]: the iteration budget given to the [while] loop of
    [generateSemversInRange] ran out before the loop ended. *)
Inductive outcome (A : Type) : Type :=
| Returns (a : A)
| Throws
| Unmodelled
| OutOfFuel.

Arguments Returns {A} a.
Arguments Throws {A}.
Arguments Unmodelled {A}.
Arguments OutOfFuel {A}.

Definition bind {A B : Type} (m : outcome A) (k : A -> outcome B) : outcome B :=
  match m with
  | Returns a => k a
  | Throws => Throws
  | Unmodelled => Unmodelled
  | OutOfFuel => OutOfFuel
  end.

Notation "x <- m ;; k" := (bind m (fun x => k))
  (at level 61, m at next level, right associativity).

(** [xs.map(f)] for an [f] that can raise: elements are visited in order and
    the first exception ends the traversal. *)
Fixpoint mapM {A B : Type} (f : A -> outcome B) (l : list A) : outcome (list B) :=
  match l with
  | [] => Returns []
  | x :: xs => y <- f x ;; ys <- mapM f xs ;; Returns (y :: ys)
  end.

(* ================================================================= *)
(** ** The JavaScript library fragment *)

Module JS.

(** *** Character classes *)

Definition code (c : ascii) : N := N_of_ascii c.

Definition in_range (lo hi : N) (c : ascii) : bool :=
  (N.leb lo (code c) && N.leb (code c) hi)%bool.

(** [\d] *)
Definition is_digit (c : ascii) : bool := in_range 48 57 c.
Definition is_upper (c : ascii) : bool := in_range 65 90 c.
Definition is_lower (c : ascii) : bool := in_range 97 122 c.
Definition is_letter (c : ascii) : bool := (is_upper c || is_lower c)%bool.

(** [\s], and the characters [String.prototype.trim] and [parseInt] skip:
    TAB, LF, VT, FF, CR, space and NBSP are the ones below code 256. *)
Definition is_space (c : ascii) : bool :=
  (in_range 9 13 c || N.eqb (code c) 32 || N.eqb (code c) 160)%bool.

(** *** Strings *)

Fixpoint all_chars (p : ascii -> bool) (s : string) : bool :=
  match s with
  | EmptyString => true
  | String c s' => (p c && all_chars p s')%bool
  end.

(** The longest prefix whose characters satisfy [p], and what follows. *)
Fixpoint span (p : ascii -> bool) (s : string) : string * string :=
  match s with
  | EmptyString => (EmptyString, EmptyString)
  | String c s' =>
      if p c then let (a, b) := span p s' in (String c a, b)
      else (EmptyString, s)
  end.

Fixpoint drop_while (p : ascii -> bool) (s : string) : string :=
  match s with
  | EmptyString => EmptyString
  | String c s' => if p c then drop_while p s' else s
  end.

Fixpoint rev_string (s : string) : string :=
  match s with
  | EmptyString => EmptyString
  | String c s' => rev_string s' ++ String c EmptyString
  end.

(** No character of [s] is [c]. *)
Fixpoint lacks (c : ascii) (s : string) : Prop :=
  match s with
  | EmptyString => True
  | String d s' => Ascii.eqb d c = false /\ lacks c s'
  end.

(** [s.trim()] *)
Definition trim (s : string) : string :=
  rev_string (drop_while is_space (rev_string (drop_while is_space s))).

(** [s.split(sep)] for a one-character separator.  The result is never
    empty: [''.split('.')] is [['']]. *)
Fixpoint split (sep : ascii) (s : string) : list string :=
  match s with
  | EmptyString => [EmptyString]
  | String c s' =>
      if Ascii.eqb c sep then EmptyString :: split sep s'
      else match split sep s' with
           | [] => [String c EmptyString]
           | p :: ps => String c p :: ps
           end
  end.

(** [xs.join(sep)] *)
Definition join (sep : string) (l : list string) : string := String.concat sep l.

(** [s.includes(sub)] *)
Fixpoint includes (s sub : string) : bool :=
  if String.prefix sub s then true
  else match s with
       | EmptyString => false
       | String _ s' => includes s' sub
       end.

(** [s.indexOf(c)] for a one-character [c]; [-1] when [c] does not occur. *)
Fixpoint indexOf (s : string) (c : ascii) : Z :=
  match s with
  | EmptyString => (-1)%Z
  | String d s' =>
      if Ascii.eqb d c then 0%Z
      else let i := indexOf s' c in
           if (i <? 0)%Z then (-1)%Z else (i + 1)%Z
  end.

(** [s.toLowerCase()].  Below code 256 the letters with a lower-case partner
    are A-Z and the Latin-1 capitals U+00C0..U+00DE except the
    multiplication sign U+00D7; the partner is 32 code points further. *)
Definition lower_char (c : ascii) : ascii :=
  if (is_upper c || (in_range 192 222 c && negb (N.eqb (code c) 215)))%bool
  then ascii_of_N (code c + 32)
  else c.

Fixpoint toLowerCase (s : string) : string :=
  match s with
  | EmptyString => EmptyString
  | String c s' => String (lower_char c) (toLowerCase s')
  end.

(** The locale [s.toLocaleLowerCase()] works in when it is called without
    argument: the host's default locale, reduced to the languages that have
    case mappings of their own (Azeri, Lithuanian, Turkish), or to the
    undetermined locale [und] for every other host locale. *)
Inductive locale : Type :=
| Locale_az
| Locale_lt
| Locale_tr
| Locale_und.

(** The characters below code 256 whose lower-case form depends on the
    language: capital I in Turkish and Azeri (its small form there is the
    dotless i, U+0131), and capital I with grave or with acute in
    Lithuanian (small i, combining dot above U+0307, and the accent). *)
Definition language_sensitive (l : locale) (c : ascii) : bool :=
  match l with
  | Locale_tr | Locale_az => N.eqb (code c) 73
  | Locale_lt => (N.eqb (code c) 204 || N.eqb (code c) 205)%bool
  | Locale_und => false
  end.

(** No character of [s] has a lower-case form of its own in locale [l]. *)
Definition language_neutral (l : locale) (s : string) : bool :=
  all_chars (fun c => negb (language_sensitive l c)) s.

(** [s.toLocaleLowerCase()] in the host locale [l].  On a string without
    language-sensitive characters it is [s.toLowerCase()]; on another
    string the result holds a code unit from 256 on, which no string of
    this development has. *)
Definition toLocaleLowerCase (l : locale) (s : string) : outcome string :=
  if language_neutral l s then Returns (toLowerCase s) else Unmodelled.

(** The truth value of a possibly [undefined] string: [undefined] and ['']
    are falsy. *)
Definition truthy (v : option string) : bool :=
  match v with
  | None => false
  | Some s => negb (String.eqb s EmptyString)
  end.

(** [a || b] on possibly [undefined] strings. *)
Definition or_else (a b : option string) : option string :=
  if truthy a then a else b.

(** *** Numbers

    A JavaScript number that holds an integer is modelled by that integer.
    The model is exact for integers of magnitude at most
    [MAX_SAFE_INTEGER]; larger ones are rounded by the language, and the
    theorems that rely on the printed digits of a parsed number carry the
    bound as a hypothesis. *)

Definition MAX_SAFE_INTEGER : N := 9007199254740991.

(** Value of a digit in a radix up to 16; [None] for another character. *)
Definition digit_value (radix : N) (c : ascii) : option N :=
  let v :=
    if is_digit c then Some (code c - 48)%N
    else if in_range 97 102 c then Some (code c - 87)%N
    else if in_range 65 70 c then Some (code c - 55)%N
    else None in
  match v with
  | Some d => if N.ltb d radix then Some d else None
  | None => None
  end.

Definition is_radix_digit (radix : N) (c : ascii) : bool :=
  match digit_value radix c with Some _ => true | None => false end.

(** The number written by a string of digits, most significant first. *)
Fixpoint digits_value_from (radix : N) (acc : N) (s : string) : N :=
  match s with
  | EmptyString => acc
  | String c s' =>
      digits_value_from radix
        (acc * radix + match digit_value radix c with Some d => d | None => 0 end)%N s'
  end.

Definition digits_value (radix : N) (s : string) : N := digits_value_from radix 0 s.

(** [+s] for a string of decimal digits. *)
Definition to_number (s : string) : N := digits_value 10 s.

(** [String(n)] for a non-negative integer. *)
Definition show_N (n : N) : string := NilEmpty.string_of_uint (N.to_uint n).

(** [String(z)] for an integer; [-0] prints as ["0"], as in the language. *)
Definition show_Z (z : Z) : string :=
  match z with
  | Zneg p => String "-" (show_N (Npos p))
  | _ => show_N (Z.to_N z)
  end.

(** Result of [parseInt]: [NaN] or an integer. *)
Inductive number : Type :=
| NaN
| Int (z : Z).

(** The sign [parseInt] reads, and the text behind it. *)
Definition read_sign (s : string) : bool * string :=
  match s with
  | String "-" r => (true, r)
  | String "+" r => (false, r)
  | _ => (false, s)
  end.

(** The radix [parseInt] settles on when none is given, and the text
    behind the prefix. *)
Definition read_radix (s : string) : N * string :=
  match s with
  | String "0" (String "x" r) => (16%N, r)
  | String "0" (String "X" r) => (16%N, r)
  | _ => (10%N, s)
  end.

(** [parseInt(s)] with no radix argument: leading white space is skipped,
    one sign is read, a [0x] or [0X] prefix selects radix 16, and the longest
    run of digits of the radix is converted; no digit gives [NaN]. *)
Definition parseInt (s : string) : number :=
  let (neg, s2) := read_sign (drop_while is_space s) in
  let (radix, s3) := read_radix s2 in
  match fst (span (is_radix_digit radix) s3) with
  | EmptyString => NaN
  | ds => let v := Z.of_N (digits_value radix ds) in
          Int (if neg : bool then (- v)%Z else v)
  end.

End JS.

(* ================================================================= *)
(** ** The [semver] package *)

(** The package [semver] (node-semver) is a dependency of the repository,
    not part of it; spec section 6 lists it among the external
    collaborators (strict parse, validity check, increment by component,
    greater-or-equal comparison, and the "satisfies range" predicate with
    caret and tilde ranges).  The definitions below describe the documented
    behaviour of version 7 of the package on the calls [src/index.js]
    makes: [valid] and [parse] in loose mode, [gte], [inc] by ['minor'] and
    [satisfies].  Two parts are left out and answer [Unmodelled]: a numeric
    pre-release identifier from [MAX_SAFE_INTEGER] on (the package compares
    those as floating-point numbers), and a range string that is not one
    full version, bare or prefixed by [~] or [^]. *)
Module semver.
Import JS.

(** A pre-release identifier: a number, or a string with a non-digit. *)
Inductive ident : Type :=
| Num (n : N)
| Str (s : string).

Record SemVer : Type := mkSemVer {
  major : N;
  minor : N;
  patch : N;
  prerelease : list ident
}.

Definition MAX_LENGTH : nat := 256.

Definition nonempty (s : string) : bool :=
  match s with EmptyString => false | _ => true end.

(** [[0-9A-Za-z-]] *)
Definition is_ident_char (c : ascii) : bool :=
  (is_digit c || is_letter c || Ascii.eqb c "-")%bool.

(** [0|[1-9]\d*] *)
Definition strict_numeric (s : string) : bool :=
  match s with
  | EmptyString => false
  | String "0" EmptyString => true
  | String "0" _ => false
  | _ => all_chars is_digit s
  end.

(** A pre-release identifier of the strict grammar,
    [0|[1-9]\d*|\d*[a-zA-Z-][a-zA-Z0-9-]*]: a non-empty run of identifier
    characters that, when it is all digits, has no leading zero. *)
Definition strict_id (s : string) : bool :=
  (nonempty s && all_chars is_ident_char s
   && (negb (all_chars is_digit s) || strict_numeric s))%bool.

(** A pre-release identifier of the loose grammar, and a build identifier:
    any non-empty run of identifier characters. *)
Definition loose_id (s : string) : bool :=
  (nonempty s && all_chars is_ident_char s)%bool.

Definition id_list (ok : string -> bool) (s : string) : bool :=
  forallb ok (split "." s).

(** The text before the first [c] and, when [c] occurs, the text after. *)
Fixpoint cut (c : ascii) (s : string) : string * option string :=
  match s with
  | EmptyString => (EmptyString, None)
  | String d s' =>
      if Ascii.eqb d c then (EmptyString, Some s')
      else let (a, b) := cut c s' in (String d a, b)
  end.

(** What the regular expressions capture: major, minor, patch and the
    pre-release text. *)
Definition captures : Type := (string * string * string * option string)%type.

(** A run of digits followed by a dot. *)
Definition number_dot (strict : bool) (s : string) : option (string * string) :=
  let (d, r) := span is_digit s in
  if (nonempty d && (negb strict || strict_numeric d))%bool then
    match r with
    | String "." r' => Some (d, r')
    | _ => None
    end
  else None.

(** The build suffix, [+] and identifiers separated by dots up to the end
    of the text, is independent of the rest: no other part of either
    grammar can hold a [+]. *)
Definition build_ok (b : option string) : bool :=
  match b with
  | None => true
  | Some t => id_list loose_id t
  end.

(** The regular expression [FULL]: an optional [v]; three numbers
    [0|[1-9]\d*] separated by dots; optionally a hyphen and pre-release
    identifiers separated by dots; optionally the build suffix. *)
Definition match_FULL (t : string) : option captures :=
  let (body, build) := cut "+" t in
  if build_ok build then
    let b := match body with String "v" r => r | _ => body end in
    match number_dot true b with
    | Some (M, r1) =>
        match number_dot true r1 with
        | Some (m, r2) =>
            let (p, r3) := span is_digit r2 in
            if strict_numeric p then
              match r3 with
              | EmptyString => Some (M, m, p, None)
              | String "-" pre =>
                  if id_list strict_id pre then Some (M, m, p, Some pre) else None
              | _ => None
              end
            else None
        | None => None
        end
    | None => None
    end
  else None.

(** What may follow the patch digits in the loose grammar: nothing; or
    pre-release identifiers separated by dots, after a hyphen when there is
    one and the text behind it is well formed (the hyphen is optional
    there, and is itself an identifier character). *)
Definition loose_rest (rest : string) : option (option string) :=
  match rest with
  | EmptyString => Some None
  | String "-" r =>
      if id_list loose_id r then Some (Some r)
      else if id_list loose_id rest then Some (Some rest)
      else None
  | _ => if id_list loose_id rest then Some (Some rest) else None
  end.

(** The patch group [(\d+)] is greedy and gives digits back one at a time:
    the first [k] digits of [ds] are the patch and the others start the
    pre-release text, for [k] from the whole run down to one digit. *)
Fixpoint loose_patch (k : nat) (ds r : string) : option (string * option string) :=
  match k with
  | O => None
  | S k' =>
      let rest := (substring k (String.length ds - k) ds ++ r)%string in
      match loose_rest rest with
      | Some pre => Some (substring 0 k ds, pre)
      | None => loose_patch k' ds r
      end
  end.

(** The regular expression [LOOSE]: any run of [v], [=] and white space;
    three numbers [\d+] separated by dots; optionally the pre-release text
    of [loose_rest]; optionally the build suffix. *)
Definition match_LOOSE (t : string) : option captures :=
  let (body, build) := cut "+" t in
  if build_ok build then
    let b := drop_while
               (fun c => (Ascii.eqb c "v" || Ascii.eqb c "=" || is_space c)%bool) body in
    match number_dot false b with
    | Some (M, r1) =>
        match number_dot false r1 with
        | Some (m, r2) =>
            let (ds, r3) := span is_digit r2 in
            match loose_patch (String.length ds) ds r3 with
            | Some (p, pre) => Some (M, m, p, pre)
            | None => None
            end
        | None => None
        end
    | None => None
    end
  else None.

(** One pre-release identifier as the constructor stores it. *)
Definition id_of_string (s : string) : outcome ident :=
  if all_chars is_digit s then
    if N.ltb (to_number s) MAX_SAFE_INTEGER then Returns (Num (to_number s))
    else Unmodelled
  else Returns (Str s).

(** The constructor's work once the regular expression has matched: a
    component above [MAX_SAFE_INTEGER] is a [TypeError]. *)
Definition of_captures (c : captures) : outcome SemVer :=
  let '(M, m, p, pre) := c in
  if N.ltb MAX_SAFE_INTEGER (to_number M) then Throws
  else if N.ltb MAX_SAFE_INTEGER (to_number m) then Throws
  else if N.ltb MAX_SAFE_INTEGER (to_number p) then Throws
  else
    ids <- match pre with
           | None => Returns []
           | Some t => mapM id_of_string (split "." t)
           end ;;
    Returns (mkSemVer (to_number M) (to_number m) (to_number p) ids).

(** [new SemVer(version, {loose})] *)
Definition new_SemVer (loose : bool) (version : string) : outcome SemVer :=
  if Nat.ltb MAX_LENGTH (String.length version) then Throws
  else
    match (if loose then match_LOOSE else match_FULL) (trim version) with
    | None => Throws
    | Some c => of_captures c
    end.

Definition show_ident (i : ident) : string :=
  match i with
  | Num n => show_N n
  | Str s => s
  end.

(** [v.format()], the value of [v.version]. *)
Definition format (v : SemVer) : string :=
  (show_N (major v) ++ "." ++ show_N (minor v) ++ "." ++ show_N (patch v)
   ++ match prerelease v with
      | [] => ""
      | ids => "-" ++ join "." (map show_ident ids)
      end)%string.

(** [compareIdentifiers]: numbers by value, a number below any string,
    strings by code units. *)
Definition compareIdentifiers (a b : ident) : comparison :=
  match a, b with
  | Num x, Num y => N.compare x y
  | Num _, Str _ => Lt
  | Str _, Num _ => Gt
  | Str s, Str t => String.compare s t
  end.

Fixpoint compare_ids (a b : list ident) : comparison :=
  match a, b with
  | [], [] => Eq
  | [], _ :: _ => Lt
  | _ :: _, [] => Gt
  | x :: a', y :: b' =>
      match compareIdentifiers x y with
      | Eq => compare_ids a' b'
      | c => c
      end
  end.

Definition compareMain (a b : SemVer) : comparison :=
  match N.compare (major a) (major b) with
  | Eq => match N.compare (minor a) (minor b) with
          | Eq => N.compare (patch a) (patch b)
          | c => c
          end
  | c => c
  end.

(** A version without pre-release is above the same version with one. *)
Definition comparePre (a b : SemVer) : comparison :=
  match prerelease a, prerelease b with
  | [], [] => Eq
  | _ :: _, [] => Lt
  | [], _ :: _ => Gt
  | x, y => compare_ids x y
  end.

(** [a.compare(b)] *)
Definition compare (a b : SemVer) : comparison :=
  match compareMain a b with
  | Eq => comparePre a b
  | c => c
  end.

Definition geb (a b : SemVer) : bool :=
  match compare a b with Lt => false | _ => true end.

(** [semver.gte(a, b)]: both strings are parsed strictly, [a] first. *)
Definition gte (a b : string) : outcome bool :=
  va <- new_SemVer false a ;;
  vb <- new_SemVer false b ;;
  Returns (geb va vb).

(** [v.inc('minor')]: a pre-release of a [x.y.0] version is bumped to that
    version, anything else to the next minor. *)
Definition inc_minor (v : SemVer) : SemVer :=
  let m := if (negb (N.eqb (patch v) 0)
               || match prerelease v with [] => true | _ => false end)%bool
           then (minor v + 1)%N else minor v in
  mkSemVer (major v) m 0 [].

(** [semver.inc(version, 'minor')]: [null] for an invalid version. *)
Definition inc (version : string) : outcome (option string) :=
  match new_SemVer false version with
  | Returns v => Returns (Some (format (inc_minor v)))
  | Throws => Returns None
  | Unmodelled => Unmodelled
  | OutOfFuel => OutOfFuel
  end.

(** *** Ranges *)

Inductive operator : Type := OpEq | OpGe | OpLt.

Definition comparator : Type := (operator * SemVer)%type.

Definition test (c : comparator) (v : SemVer) : bool :=
  match fst c, compare v (snd c) with
  | OpEq, Eq => true
  | OpGe, (Eq | Gt) => true
  | OpLt, Lt => true
  | _, _ => false
  end.

Definition safe (v : SemVer) : bool :=
  (N.leb (major v) MAX_SAFE_INTEGER && N.leb (minor v) MAX_SAFE_INTEGER
   && N.leb (patch v) MAX_SAFE_INTEGER)%bool.

(** The upper bounds are pre-releases [-0] of the next version. *)
Definition upper (M m p : N) : SemVer := mkSemVer M m p [Num 0].

(** [~M.m.p] is [>=M.m.p <M.(m+1).0-0]. *)
Definition tilde (v : SemVer) : list comparator :=
  [(OpGe, v); (OpLt, upper (major v) (minor v + 1) 0)].

(** [^M.m.p] is [>=M.m.p <(M+1).0.0-0]; below major 1 the first non-zero
    component is the one that must stay: [^0.m.p] is [>=0.m.p <0.(m+1).0-0]
    and [^0.0.p] is [>=0.0.p <0.0.(p+1)-0]. *)
Definition caret (v : SemVer) : list comparator :=
  [(OpGe, v);
   (OpLt, if negb (N.eqb (major v) 0) then upper (major v + 1) 0 0
          else if negb (N.eqb (minor v) 0) then upper 0 (minor v + 1) 0
          else upper 0 0 (patch v + 1))].

Definition exactly (v : SemVer) : list comparator := [(OpEq, v)].

(** The three range forms of the modelled fragment: [~version],
    [^version] and a bare [version]. *)
Definition range_form (range : string) : (SemVer -> list comparator) * string :=
  match range with
  | String "~" r => (tilde, r)
  | String "^" r => (caret, r)
  | _ => (exactly, range)
  end.

(** [new Range(range)] on the modelled fragment; [None] when the
    constructor raises (a bound that is not a version).  A lower bound
    [>=0.0.0] is stored by the package as the comparator that accepts
    everything; on every version the two give the same answer once the
    pre-release rule of [testSet] is applied. *)
Definition new_Range (range : string) : outcome (option (list comparator)) :=
  if Nat.ltb MAX_LENGTH (String.length range) then Unmodelled
  else
    let (mk, text) := range_form range in
    match match_FULL text with
    | None => Unmodelled
    | Some c =>
        match of_captures c with
        | Returns v =>
            Returns (if forallb (fun c => safe (snd c)) (mk v) then Some (mk v) else None)
        | Throws => Returns None
        | Unmodelled => Unmodelled
        | OutOfFuel => OutOfFuel
        end
    end.

Definition same_tuple (a b : SemVer) : bool :=
  (N.eqb (major a) (major b) && N.eqb (minor a) (minor b)
   && N.eqb (patch a) (patch b))%bool.

(** [testSet]: every comparator accepts the version, and a version with a
    pre-release is accepted only when some comparator carries a pre-release
    on the same [major.minor.patch]. *)
Definition testSet (set : list comparator) (v : SemVer) : bool :=
  (forallb (fun c => test c v) set
   && match prerelease v with
      | [] => true
      | _ => existsb (fun c => (match prerelease (snd c) with [] => false | _ => true end
                                && same_tuple (snd c) v)%bool) set
      end)%bool.

(** [semver.satisfies(version, range)]: [false] when the range or the
    version is invalid. *)
Definition satisfies (version range : string) : outcome bool :=
  r <- new_Range range ;;
  match r with
  | None => Returns false
  | Some set =>
      match new_SemVer false version with
      | Returns v => Returns (testSet set v)
      | Throws => Returns false
      | Unmodelled => Unmodelled
      | OutOfFuel => OutOfFuel
      end
  end.

(** [semver.valid(version, {loose: true})]: the canonical text or [null]. *)
Definition valid_loose (version : string) : outcome (option string) :=
  match new_SemVer true version with
  | Returns v => Returns (Some (format v))
  | Throws => Returns None
  | Unmodelled => Unmodelled
  | OutOfFuel => OutOfFuel
  end.

End semver.

(* ================================================================= *)
(** ** [src/index.js] *)

Import JS.

(** *** Regular-expression replacements of [resolveUserAgent] *)

(** [s] without its first [n] characters. *)
Fixpoint drop (n : nat) (s : string) : string :=
  match n, s with
  | O, _ => s
  | S _, EmptyString => EmptyString
  | S k, String _ s' => drop k s'
  end.

(** What follows the literal [lit] at the start of [s]. *)
Definition literal (lit s : string) : option string :=
  if String.prefix lit s then Some (drop (String.length lit) s) else None.

(** What follows [\d+] at the start of [s]. *)
Definition digits (s : string) : option string :=
  let (d, r) := span is_digit s in
  match d with
  | EmptyString => None
  | _ => Some r
  end.

(** What follows [\.] at the start of [s]. *)
Definition dot (s : string) : option string :=
  match s with
  | String "." r => Some r
  | _ => None
  end.

Definition and_then {A B : Type} (o : option A) (f : A -> option B) : option B :=
  match o with
  | Some a => f a
  | None => None
  end.

(** [(CriOS|OPiOS)\/(\d+)\.(\d+)\.(\d+)\.(\d+)] at the start of [s]: what
    follows the match. *)
Definition CriOS_OPiOS (s : string) : option string :=
  and_then (match literal "CriOS/" s with
            | Some r => Some r
            | None => literal "OPiOS/" s
            end)
    (fun r => and_then (digits r) (fun r => and_then (dot r)
     (fun r => and_then (digits r) (fun r => and_then (dot r)
     (fun r => and_then (digits r) (fun r => and_then (dot r) digits)))))).

(** The greedy repetition of [\d+\.?] once its first digit is read: digits,
    and single dots that follow a digit. *)
Fixpoint version_tail (after_dot : bool) (s : string) : string :=
  match s with
  | EmptyString => EmptyString
  | String c s' =>
      if is_digit c then version_tail false s'
      else if (Ascii.eqb c "." && negb after_dot)%bool then version_tail true s'
      else s
  end.

(** [YaBrowser\/(\d+\.?)+] at the start of [s]. *)
Definition YaBrowser (s : string) : option string :=
  and_then (literal "YaBrowser/" s)
    (fun r => match r with
              | String c r' => if is_digit c then Some (version_tail false r') else None
              | EmptyString => None
              end).

(** [s.replace(re, '')] for a pattern without the [g] flag: the leftmost
    match is removed. *)
Fixpoint remove_first (re : string -> option string) (s : string) : string :=
  match re s with
  | Some rest => rest
  | None => match s with
            | EmptyString => EmptyString
            | String c s' => String c (remove_first re s')
            end
  end.

(** [s.replace(re, '')] for a pattern with the [g] flag: matches are
    removed from left to right, the search resuming after each one.
    [skip] counts the characters of the current match still to be dropped. *)
Fixpoint remove_all_from (re : string -> option string) (skip : nat) (s : string) : string :=
  match s with
  | EmptyString => EmptyString
  | String c s' =>
      match skip with
      | S k => remove_all_from re k s'
      | O => match re s with
             | Some rest =>
                 match String.length s - String.length rest with
                 | S k => remove_all_from re k s'
                 | O => String c (remove_all_from re 0 s')
                 end
             | None => String c (remove_all_from re 0 s')
             end
      end
  end.

Definition remove_all (re : string -> option string) (s : string) : string :=
  remove_all_from re 0 s.

(** *** The alias table *)

Definition browserNameMap : list (string * string) :=
  [ ("bb", "BlackBerry");
    ("and_chr", "Chrome");
    ("ChromeAndroid", "Chrome");
    ("FirefoxAndroid", "Firefox");
    ("ff", "Firefox");
    ("ie_mob", "ExplorerMobile");
    ("ie", "Explorer");
    ("and_ff", "Firefox");
    ("ios_saf", "iOS");
    ("op_mini", "OperaMini");
    ("op_mob", "OperaMobile");
    ("and_qq", "QQAndroid");
    ("and_uc", "UCAndroid") ].

(** [browserNameMap[key]] for an own key of the table; [None] for every
    other [key]. *)
Fixpoint lookup (key : string) (m : list (string * string)) : option string :=
  match m with
  | [] => None
  | (k, v) :: m' => if String.eqb k key then Some v else lookup key m'
  end.

(** The property names an object literal inherits from [Object.prototype].
    For these [key in browserNameMap] is true as it is for the own keys,
    and [browserNameMap[key]] is a function (the prototype object itself
    for [__proto__]), not a string. *)
Definition inherited_names : list string :=
  [ "constructor"; "__defineGetter__"; "__defineSetter__"; "hasOwnProperty";
    "__lookupGetter__"; "__lookupSetter__"; "isPrototypeOf";
    "propertyIsEnumerable"; "toString"; "valueOf"; "__proto__";
    "toLocaleString" ].

Definition inherited (key : string) : bool :=
  existsb (String.eqb key) inherited_names.

(** *** Version normalisation *)

(** [parseNumber(value)]; [value] is [None] for the default of the
    destructuring, the number [0]. *)
Definition parseNumber (value : option string) : Z :=
  match value with
  | None => 0%Z
  | Some s =>
      if String.eqb s "" then 0%Z
      else match parseInt s with
           | NaN => 0%Z
           | Int z => z
           end
  end.

(** [version.split('.').slice(0, 3)], with the default ['0.0.0'] standing in
    for [undefined] ([None]). *)
Definition components (version : option string) : list string :=
  firstn 3 (split "." (match version with
                       | None => "0.0.0"
                       | Some v => v
                       end)).

(** [getNormalizedVersion(version)] *)
Definition getNormalizedVersion (version : option string) : string :=
  let parts := components version in
  let major := nth_error parts 0 in
  let minor := nth_error parts 1 in
  let patch := nth_error parts 2 in
  join "." [show_Z (parseNumber major); show_Z (parseNumber minor);
            show_Z (parseNumber patch)].

(** *** The user-agent resolver *)

(** What the tokenizer reports; a field is [None] when [undefined]. *)
Module UA.
Record item : Type := mkItem {
  name : option string;
  version : option string
}.
Record parsed : Type := mkParsed {
  browser : item;
  os : item;
  engine : item
}.
End UA.

(** [{family, version}]: a resolved browser, and a target of the parsed
    browser list. *)
Record Browser : Type := mkBrowser {
  family : string;
  version : string
}.

(** [v === s] for a possibly [undefined] [v]. *)
Definition equals (v : option string) (s : string) : bool :=
  match v with
  | Some t => String.eqb t s
  | None => false
  end.

(** The pre-stripping of [resolveUserAgent]. *)
Definition strippedUA (uaString : string) : string :=
  let s := remove_first CriOS_OPiOS uaString in
  let s := remove_all YaBrowser s in
  remove_all (literal "FBAN/FBIOS") (remove_all (literal "FB_IAB") s).

Section Tokenizer.

(** The external tokenizer, [UAParser] of [ua-parser-js]. *)
Variable UAParser : string -> UA.parsed.

Definition resolveUserAgent (uaString : string) : Browser :=
  let parsedUA := UAParser (strippedUA uaString) in
  match UA.name (UA.browser parsedUA) with
  | None => mkBrowser "" "0.0.0"
  | Some name =>
      if String.eqb name "" then mkBrowser "" "0.0.0"
      else if (includes name "Safari" && equals (UA.name (UA.os parsedUA)) "iOS")%bool then
        mkBrowser "iOS"
          (getNormalizedVersion
             (or_else (UA.version (UA.browser parsedUA)) (UA.version (UA.os parsedUA))))
      else if equals (UA.name (UA.os parsedUA)) "iOS" then
        mkBrowser "iOS" (getNormalizedVersion (UA.version (UA.os parsedUA)))
      else
        let version := getNormalizedVersion (UA.version (UA.browser parsedUA)) in
        if (includes name "Chrome Mobile" || includes name "Chrome WebView"
            || includes name "Chromium" || includes name "Chrome Headless")%bool then
          mkBrowser "Chrome" version
        else if String.eqb name "Samsung Browser" then mkBrowser "Samsung" version
        else if String.eqb name "Firefox Mobile" then mkBrowser "Firefox" version
        else if String.eqb name "IE" then mkBrowser "Explorer" version
        else if String.eqb name "IEMobile" then mkBrowser "ExplorerMobile" version
        else if (equals (UA.name (UA.engine parsedUA)) "Blink"
                 && equals (UA.name (UA.os parsedUA)) "Android")%bool then
          mkBrowser "Chrome" (getNormalizedVersion (UA.version (UA.engine parsedUA)))
        else if String.eqb name "Android Browser" then
          mkBrowser "Android" (getNormalizedVersion (UA.version (UA.os parsedUA)))
        else mkBrowser name version
  end.

End Tokenizer.

(** *** Semver conversion and range expansion *)

(** [split.push('0')] while the array has fewer than three elements. *)
Definition pad3 (l : list string) : list string :=
  match l with
  | [] => ["0"; "0"; "0"]
  | [a] => [a; "0"; "0"]
  | [a; b] => [a; b; "0"]
  | _ => l
  end.

(** [semverify(version)] for a string or [undefined] ([None]), on which
    [version.toString()] raises. *)
Definition semverify (version : option string) : outcome string :=
  match version with
  | None => Throws
  | Some v =>
      valid <- semver.valid_loose v ;;
      match valid with
      | Some canonical => Returns canonical
      | None => Returns (join "." (pad3 (split "." v)))
      end
  end.

(** The [while] loop of [generateSemversInRange]; one unit of [fuel] pays
    for one evaluation of the loop condition.  [curVersion] is [None] when
    [semver.inc] returned [null]. *)
Fixpoint rangeLoop (fuel : nat) (endSemver : string) (curVersion : option string)
    (versionsInRange : list string) : outcome (list string) :=
  match fuel with
  | O => OutOfFuel
  | S fuel' =>
      match curVersion with
      | None => Throws
      | Some cur =>
          go <- semver.gte endSemver cur ;;
          if go : bool then
            next <- semver.inc cur ;;
            rangeLoop fuel' endSemver next (versionsInRange ++ [cur])
          else Returns versionsInRange
      end
  end.

Definition generateSemversInRange (fuel : nat) (versionRange : string)
  : outcome (list string) :=
  let parts := split "-" versionRange in
  startSemver <- semverify (nth_error parts 0) ;;
  endSemver <- semverify (nth_error parts 1) ;;
  rangeLoop fuel endSemver (Some startSemver) [].

(** *** Query normalisation *)

(** The first key of the table, in the order of [Object.keys], that starts
    [s], with its value. *)
Fixpoint key_at (m : list (string * string)) (s : string) : option (string * string) :=
  match m with
  | [] => None
  | (k, v) :: m' => if String.prefix k s then Some (k, v) else key_at m' s
  end.

(** [normalizeQuery(query)]: the leftmost match of the alternation of the
    keys is replaced by its value.  ([query.replace(match[0], value)]
    replaces the first occurrence of the matched text, which is the match
    itself, the match being leftmost.) *)
Fixpoint normalizeQuery (query : string) : string :=
  match key_at browserNameMap query with
  | Some (k, v) => (v ++ drop (String.length k) query)%string
  | None => match query with
            | EmptyString => EmptyString
            | String c q => String c (normalizeQuery q)
            end
  end.

(** *** The browser list parser *)

(** [normalizedName] in the last [map] of [parseBrowsersList]:
    [browserNameMap[name]] when [name in browserNameMap], and [name]
    otherwise.  For an own key that is the entry of the table; for an
    inherited name it is not a string, and a family that is not a string is
    outside this development. *)
Definition normalizedName (name : string) : outcome string :=
  match lookup name browserNameMap with
  | Some n => Returns n
  | None => if inherited name then Unmodelled else Returns name
  end.

(** One element of the last [map] of [parseBrowsersList]: the targets a
    token [name version] stands for.  [version] is [None] when the token
    has no space, and [browser.version.indexOf] then raises; the code
    reads the table before that, which has no effect of its own, so the
    exception comes whatever the name is. *)
Definition targetsOf (fuel : nat) (name : string) (version : option string)
  : outcome (list Browser) :=
  match version with
  | None => Throws
  | Some v =>
      normalizedName <- normalizedName name ;;
      if (0 <? indexOf v "-")%Z then
        versions <- generateSemversInRange fuel v ;;
        Returns (map (fun version => mkBrowser normalizedName version) versions)
      else Returns [mkBrowser normalizedName v]
  end.

(** [parseBrowsersList(browsersList)].  The last [map] gives an array for a
    range and one object otherwise; here both are lists, and [flatten] is
    [concat]. *)
Definition parseBrowsersList (fuel : nat) (browsersList : list string)
  : outcome (list Browser) :=
  let browsers := map (fun browser =>
                         let parts := split " " browser in
                         (nth 0 parts "", nth_error parts 1)) browsersList in
  let browsers := filter (fun b => negb (equals (snd b) "TP")) browsers in
  nested <- mapM (fun b => targetsOf fuel (fst b) (snd b)) browsers ;;
  Returns (concat nested).

(** *** The comparison policy *)

Record Options : Type := mkOptions {
  ignoreMinor : bool;
  ignorePatch : bool;
  allowHigherVersions : bool
}.

Definition compareBrowserSemvers (versionA versionB : string) (options : Options)
  : outcome bool :=
  semverifiedA <- semverify (Some versionA) ;;
  semverifiedB <- semverify (Some versionB) ;;
  let referenceVersion := semverifiedB in
  let referenceVersion :=
    if ignorePatch options then ("~" ++ semverifiedB)%string else referenceVersion in
  let referenceVersion :=
    if ignoreMinor options then ("^" ++ semverifiedB)%string else referenceVersion in
  if allowHigherVersions options then semver.gte semverifiedA semverifiedB
  else semver.satisfies semverifiedA referenceVersion.

(** *** The match engine *)

(** The caller's [opts]: a field is [None] when the key is absent, and
    otherwise holds the truth value of what the caller put there. *)
Module opts.
Record t : Type := mk {
  browsers : option (list string);
  env : option string;
  path : option string;
  ignoreMinor : option bool;
  ignorePatch : option bool;
  allowHigherVersions : option bool
}.
End opts.

(** [{ignoreMinor: false, ignorePatch: true, ...opts}] as
    [compareBrowserSemvers] reads it. *)
Definition mergeOptions (o : opts.t) : Options :=
  mkOptions
    (match opts.ignoreMinor o with Some b => b | None => false end)
    (match opts.ignorePatch o with Some b => b | None => true end)
    (match opts.allowHigherVersions o with Some b => b | None => false end).

(** [xs.some(f)]: stops at the first element on which [f] is true. *)
Fixpoint some {A : Type} (f : A -> outcome bool) (l : list A) : outcome bool :=
  match l with
  | [] => Returns false
  | x :: xs => b <- f x ;; if b : bool then Returns true else some f xs
  end.

(** The callback of [parsedBrowsers.some] in [matchesUA], in the host
    locale [hostLocale]. *)
Definition matchesTarget (hostLocale : locale) (resolvedUserAgent : Browser)
    (options : Options) (browser : Browser) : outcome bool :=
  let browserFamily := toLowerCase (family browser) in
  resolvedFamily <- toLocaleLowerCase hostLocale (family resolvedUserAgent) ;;
  if String.eqb browserFamily resolvedFamily
  then compareBrowserSemvers (version resolvedUserAgent) (version browser) options
  else Returns false.

Definition matchesAny (hostLocale : locale) (parsedBrowsers : list Browser)
    (resolvedUserAgent : Browser) (options : Options) : outcome bool :=
  some (matchesTarget hostLocale resolvedUserAgent options) parsedBrowsers.

(** [opts.browsers.map(normalizeQuery)], or [undefined] without
    [opts.browsers]. *)
Definition normalizedQuery (o : opts.t) : option (list string) :=
  option_map (map normalizeQuery) (opts.browsers o).

Section Collaborators.

Variable UAParser : string -> UA.parsed.

(** The external query engine [browserslist(queries, {env, path})]; it may
    raise. *)
Variable browserslist : option (list string) -> option string -> string -> outcome (list string).

(** [process.cwd()] *)
Variable cwd : string.

(** The host's default locale, which [toLocaleLowerCase] reads. *)
Variable hostLocale : locale.

(** [opts.path || process.cwd()] *)
Definition configPath (o : opts.t) : string :=
  match or_else (opts.path o) (Some cwd) with
  | Some p => p
  | None => cwd
  end.

Definition matchesUA (fuel : nat) (uaString : string) (o : opts.t) : outcome bool :=
  browsers <- browserslist (normalizedQuery o) (opts.env o) (configPath o) ;;
  parsedBrowsers <- parseBrowsersList fuel browsers ;;
  let resolvedUserAgent := resolveUserAgent UAParser uaString in
  let options := mergeOptions o in
  matchesAny hostLocale parsedBrowsers resolvedUserAgent options.

End Collaborators.

(* ================================================================= *)
(** ** Facts about the library fragment *)

Module JSFacts.
Import JS.

(** *** Printing and reading decimal numbers *)

Lemma digits_value_of_uint_acc (d : Decimal.uint) (acc : positive) :
  digits_value_from 10 (Npos acc) (NilEmpty.string_of_uint d)
  = Npos (Pos.of_uint_acc d acc).
Proof.
  revert acc.
  induction d; intro acc;
    cbn [NilEmpty.string_of_uint digits_value_from Pos.of_uint_acc];
    try reflexivity;
    rewrite <- IHd; f_equal;
    match goal with
    | |- context [digit_value 10 ?c] =>
        let v := eval vm_compute in (digit_value 10 c) in
        change (digit_value 10 c) with v
    end; cbv beta iota; lia.
Qed.

Lemma digits_value_of_uint (d : Decimal.uint) :
  digits_value 10 (NilEmpty.string_of_uint d) = N.of_uint d.
Proof.
  unfold digits_value, N.of_uint.
  induction d;
    cbn [NilEmpty.string_of_uint digits_value_from Pos.of_uint];
    try reflexivity; try exact IHd;
    rewrite <- digits_value_of_uint_acc; reflexivity.
Qed.

(** Reading back a printed number gives the number. *)
Lemma to_number_show_N (n : N) : to_number (show_N n) = n.
Proof.
  unfold to_number, show_N.
  rewrite digits_value_of_uint.
  apply DecimalN.Unsigned.of_to.
Qed.

Lemma string_of_uint_digits (d : Decimal.uint) :
  all_chars is_digit (NilEmpty.string_of_uint d) = true.
Proof. induction d; simpl; auto. Qed.

Lemma show_N_digits (n : N) : all_chars is_digit (show_N n) = true.
Proof. apply string_of_uint_digits. Qed.

Lemma nzhead_not_D0 (d d' : Decimal.uint) : Decimal.nzhead d <> Decimal.D0 d'.
Proof. induction d; simpl; try discriminate; assumption. Qed.

(** A printed number is ["0"] or starts with a non-zero digit. *)
Lemma to_uint_shape (n : N) :
  N.to_uint n = Decimal.D0 Decimal.Nil
  \/ (N.to_uint n <> Decimal.Nil /\ forall d, N.to_uint n <> Decimal.D0 d).
Proof.
  pose proof (DecimalN.Unsigned.to_of (N.to_uint n)) as H.
  rewrite DecimalN.Unsigned.of_to in H.
  unfold Decimal.unorm in H.
  destruct (Decimal.nzhead (N.to_uint n)) eqn:E;
    try (left; exact H);
    right; rewrite H; split; try discriminate; intros d' Hd;
    rewrite <- E in Hd; exact (nzhead_not_D0 _ _ Hd).
Qed.

Lemma show_N_strict (n : N) : semver.strict_numeric (show_N n) = true.
Proof.
  unfold show_N.
  destruct (to_uint_shape n) as [H | [Hnil H0]].
  - rewrite H. reflexivity.
  - pose proof (string_of_uint_digits (N.to_uint n)) as Hd.
    destruct (N.to_uint n) as [| u | u | u | u | u | u | u | u | u | u];
      try (exfalso; apply Hnil; reflexivity);
      try (exfalso; exact (H0 u eq_refl));
      exact Hd.
Qed.

Lemma show_N_nonempty (n : N) : show_N n <> EmptyString.
Proof.
  pose proof (show_N_strict n) as H.
  destruct (show_N n); [discriminate | discriminate].
Qed.

(** *** Characters *)

Ltac by_cases_on c :=
  destruct c as [[] [] [] [] [] [] [] []]; vm_compute; try reflexivity; try discriminate.

Lemma digit_not_space (c : ascii) : is_digit c = true -> is_space c = false.
Proof. by_cases_on c. Qed.

Lemma digit_not_v (c : ascii) (s : string) :
  is_digit c = true ->
  match String c s with String "v" r => r | _ => String c s end = String c s.
Proof. by_cases_on c. Qed.

(** *** Strings *)

Lemma append_empty_r (s : string) : (s ++ "")%string = s.
Proof. induction s; simpl; congruence. Qed.

Lemma append_assoc (a b c : string) : ((a ++ b) ++ c = a ++ (b ++ c))%string.
Proof. induction a; simpl; congruence. Qed.

Lemma length_append (a b : string) :
  String.length (a ++ b) = String.length a + String.length b.
Proof. induction a; simpl; congruence. Qed.

Lemma all_chars_append (p : ascii -> bool) (a b : string) :
  all_chars p (a ++ b) = (all_chars p a && all_chars p b)%bool.
Proof. induction a; simpl; [reflexivity | rewrite IHa; apply andb_assoc]. Qed.

Lemma rev_string_append (a b : string) :
  rev_string (a ++ b) = (rev_string b ++ rev_string a)%string.
Proof.
  induction a; simpl.
  - symmetry; apply append_empty_r.
  - rewrite IHa. apply append_assoc.
Qed.

Lemma rev_string_involutive (s : string) : rev_string (rev_string s) = s.
Proof.
  induction s; simpl; [reflexivity |].
  rewrite rev_string_append, IHs. reflexivity.
Qed.

Lemma all_chars_rev (p : ascii -> bool) (s : string) :
  all_chars p (rev_string s) = all_chars p s.
Proof.
  induction s; simpl; [reflexivity |].
  rewrite all_chars_append, IHs. simpl.
  rewrite andb_true_r. apply andb_comm.
Qed.

(** A run of [p]-characters followed by the end or by a character outside
    [p] is what [span] cuts off. *)
Lemma span_run (p : ascii -> bool) (a b : string) :
  all_chars p a = true ->
  match b with EmptyString => True | String c _ => p c = false end ->
  span p (a ++ b) = (a, b).
Proof.
  intros Ha Hb.
  induction a as [| c a IH]; simpl in *.
  - destruct b as [| c b]; [reflexivity |]. simpl. rewrite Hb. reflexivity.
  - apply andb_true_iff in Ha. destruct Ha as [Hc Ha].
    rewrite Hc, (IH Ha). reflexivity.
Qed.

Lemma drop_while_stop (p : ascii -> bool) (c : ascii) (s : string) :
  p c = false -> drop_while p (String c s) = String c s.
Proof. intro H. simpl. rewrite H. reflexivity. Qed.

(** Text that starts and ends with a digit is left alone by [trim]. *)
Lemma trim_digits (a mid b : string) :
  a <> EmptyString -> b <> EmptyString ->
  all_chars is_digit a = true -> all_chars is_digit b = true ->
  trim (a ++ mid ++ b) = (a ++ mid ++ b)%string.
Proof.
  intros Ha Hb Da Db.
  unfold trim.
  assert (H1 : drop_while is_space (a ++ mid ++ b) = (a ++ mid ++ b)%string).
  { destruct a as [| c a]; [contradiction |]. simpl in Da.
    apply andb_true_iff in Da. destruct Da as [Dc _].
    apply drop_while_stop, digit_not_space, Dc. }
  rewrite H1.
  assert (H2 : drop_while is_space (rev_string (a ++ mid ++ b))
               = rev_string (a ++ mid ++ b)).
  { rewrite <- append_assoc, rev_string_append.
    pose proof (all_chars_rev is_digit b) as Hr. rewrite Db in Hr.
    assert (Hne : rev_string b <> EmptyString).
    { destruct b as [| c b]; [contradiction |]. simpl.
      destruct (rev_string b); discriminate. }
    destruct (rev_string b) as [| c r]; [contradiction |]. simpl in Hr.
    apply andb_true_iff in Hr. destruct Hr as [Dc _].
    apply drop_while_stop, digit_not_space, Dc. }
  rewrite H2. apply rev_string_involutive.
Qed.

(** [cut] finds nothing in a text made of other characters. *)
Lemma lacks_of_all_chars (c : ascii) (p : ascii -> bool) (s : string) :
  (forall d, p d = true -> Ascii.eqb d c = false) ->
  all_chars p s = true -> lacks c s.
Proof.
  intros Hp. induction s as [| d s IH]; simpl; intro H; [exact I |].
  apply andb_true_iff in H. destruct H as [Hd Hs].
  split; [apply Hp, Hd | apply IH, Hs].
Qed.

End JSFacts.

(* ================================================================= *)
(** ** Facts about the [semver] model *)

Module SemverFacts.
Import JS JSFacts semver.

(** A version without pre-release. *)
Definition triple (M m p : N) : SemVer := mkSemVer M m p [].

Definition triple_text (M m p : N) : string :=
  (show_N M ++ "." ++ show_N m ++ "." ++ show_N p)%string.

Lemma format_triple (M m p : N) : format (triple M m p) = triple_text M m p.
Proof.
  unfold format, triple, triple_text. simpl.
  rewrite append_empty_r. reflexivity.
Qed.

Lemma cut_lacks (c : ascii) (s : string) : lacks c s -> cut c s = (s, None).
Proof.
  induction s as [| d s IH]; simpl; [reflexivity |].
  intros [Hd Hs]. rewrite Hd, (IH Hs). reflexivity.
Qed.

Definition digit_or_dot (c : ascii) : bool := (is_digit c || Ascii.eqb c ".")%bool.

Lemma digit_or_dot_not_plus (c : ascii) :
  digit_or_dot c = true -> Ascii.eqb c "+" = false.
Proof. by_cases_on c. Qed.

Lemma digits_digit_or_dot (s : string) :
  all_chars is_digit s = true -> all_chars digit_or_dot s = true.
Proof.
  induction s as [| c s IH]; simpl; [reflexivity |].
  intro H. apply andb_true_iff in H. destruct H as [Hc Hs].
  unfold digit_or_dot at 1. rewrite Hc, (IH Hs). reflexivity.
Qed.

Lemma triple_text_chars (M m p : N) :
  all_chars digit_or_dot (triple_text M m p) = true.
Proof.
  unfold triple_text.
  rewrite !all_chars_append. simpl.
  rewrite !digits_digit_or_dot by apply show_N_digits. reflexivity.
Qed.

Lemma number_dot_show (n : N) (r : string) :
  number_dot true (show_N n ++ String "." r) = Some (show_N n, r).
Proof.
  unfold number_dot.
  rewrite (span_run is_digit (show_N n) (String "." r))
    by (try apply show_N_digits; reflexivity).
  rewrite show_N_strict.
  pose proof (show_N_nonempty n) as H.
  destruct (show_N n); [contradiction | reflexivity].
Qed.

(** The strict grammar reads a printed triple back as its three numbers. *)
Lemma match_FULL_triple (M m p : N) :
  match_FULL (triple_text M m p)
  = Some (show_N M, show_N m, show_N p, None).
Proof.
  unfold match_FULL.
  rewrite cut_lacks
    by (apply (lacks_of_all_chars _ digit_or_dot);
        [exact digit_or_dot_not_plus | apply triple_text_chars]).
  cbn [build_ok].
  assert (Hv : match triple_text M m p with
               | String "v" r => r
               | _ => triple_text M m p
               end = triple_text M m p).
  { unfold triple_text.
    pose proof (show_N_nonempty M) as Hne.
    pose proof (show_N_digits M) as Hd.
    destruct (show_N M) as [| c s]; [contradiction |].
    simpl in Hd. apply andb_true_iff in Hd. destruct Hd as [Hc _].
    apply (digit_not_v c _ Hc). }
  rewrite Hv. unfold triple_text.
  cbn [append]. rewrite number_dot_show, number_dot_show.
  rewrite <- (append_empty_r (show_N p)) at 1.
  rewrite (span_run is_digit (show_N p) EmptyString)
    by (try apply show_N_digits; exact I).
  rewrite show_N_strict. reflexivity.
Qed.

Lemma trim_triple (M m p : N) : trim (triple_text M m p) = triple_text M m p.
Proof.
  unfold triple_text.
  replace (show_N M ++ "." ++ show_N m ++ "." ++ show_N p)%string
    with (show_N M ++ ("." ++ show_N m ++ ".") ++ show_N p)%string
    by (rewrite !append_assoc; reflexivity).
  apply trim_digits; auto using show_N_nonempty, show_N_digits.
Qed.

Lemma of_captures_triple (M m p : N) :
  of_captures (show_N M, show_N m, show_N p, None)
  = if safe (triple M m p) then Returns (triple M m p) else Throws.
Proof.
  unfold of_captures, safe, triple. cbn [major minor patch].
  rewrite !to_number_show_N.
  rewrite !N.ltb_antisym.
  destruct (N.leb M MAX_SAFE_INTEGER); [| reflexivity].
  destruct (N.leb m MAX_SAFE_INTEGER); [| reflexivity].
  destruct (N.leb p MAX_SAFE_INTEGER); reflexivity.
Qed.

(** *** The length of a printed number *)

Lemma digits_value_from_lower (s : string) (acc : N) :
  (acc * 10 ^ N.of_nat (String.length s) <= digits_value_from 10 acc s)%N.
Proof.
  revert acc. induction s as [| c s IH]; intro acc.
  - simpl. lia.
  - cbn [String.length digits_value_from].
    rewrite Nat2N.inj_succ, N.pow_succ_r', N.mul_assoc.
    eapply N.le_trans; [| apply IH].
    apply N.mul_le_mono_r with (p := (10 ^ N.of_nat (String.length s))%N) (n := (acc * 10)%N)
      (m := (acc * 10 + match digit_value 10 c with Some d => d | None => 0 end)%N).
    lia.
Qed.

Lemma leading_digit_positive (c : ascii) :
  is_digit c = true -> Ascii.eqb c "0" = false ->
  N.leb 1 (match digit_value 10 c with Some d => d | None => 0 end) = true.
Proof. by_cases_on c. Qed.

Lemma show_N_length (n : N) :
  (n <= MAX_SAFE_INTEGER)%N -> String.length (show_N n) <= 16.
Proof.
  intro Hn.
  pose proof (to_number_show_N n) as Hv.
  pose proof (show_N_strict n) as Hs.
  destruct (show_N n) as [| c s]; [simpl; lia |].
  destruct (Nat.le_gt_cases (String.length s) 15) as [Hle | Hgt];
    [simpl; lia |].
  exfalso.
  assert (Hc : is_digit c = true /\ Ascii.eqb c "0" = false).
  { destruct s as [| c' s']; [simpl in Hgt; lia |].
    revert Hs. clear. by_cases_on c; intros; split; reflexivity || assumption. }
  destruct Hc as [Hc H0].
  unfold to_number, digits_value in Hv.
  cbn [digits_value_from] in Hv.
  pose proof (leading_digit_positive c Hc H0) as Hd.
  apply N.leb_le in Hd.
  set (d := match digit_value 10 c with Some d => d | None => 0%N end) in *.
  pose proof (digits_value_from_lower s (0 * 10 + d)%N) as Hl.
  rewrite Hv in Hl.
  assert (Hp : (10 ^ 16 <= 10 ^ N.of_nat (String.length s))%N)
    by (apply N.pow_le_mono_r; lia).
  assert (Hm : (1 * 10 ^ N.of_nat (String.length s)
                <= (0 * 10 + d) * 10 ^ N.of_nat (String.length s))%N)
    by (apply N.mul_le_mono_r; lia).
  change (10 ^ 16)%N with 10000000000000000%N in Hp.
  unfold MAX_SAFE_INTEGER in Hn. lia.
Qed.

Lemma triple_text_length (M m p : N) :
  safe (triple M m p) = true ->
  Nat.ltb MAX_LENGTH (String.length (triple_text M m p)) = false.
Proof.
  unfold safe, triple. cbn [major minor patch].
  rewrite !andb_true_iff, !N.leb_le. intros [[HM Hm] Hp].
  apply Nat.ltb_ge. unfold triple_text, MAX_LENGTH.
  rewrite !length_append.
  pose proof (show_N_length M HM). pose proof (show_N_length m Hm).
  pose proof (show_N_length p Hp).
  cbn [String.length]. lia.
Qed.

(** The strict constructor reads a printed triple back. *)
Lemma new_SemVer_triple (M m p : N) :
  safe (triple M m p) = true ->
  new_SemVer false (triple_text M m p) = Returns (triple M m p).
Proof.
  intro Hs. unfold new_SemVer.
  rewrite triple_text_length by exact Hs.
  rewrite trim_triple, match_FULL_triple, of_captures_triple, Hs.
  reflexivity.
Qed.

(** Whatever its size, a printed triple is read back as itself or not at
    all. *)
Lemma new_SemVer_triple_inv (M m p : N) :
  new_SemVer false (triple_text M m p) = Returns (triple M m p)
  \/ new_SemVer false (triple_text M m p) = Throws.
Proof.
  unfold new_SemVer.
  destruct (Nat.ltb MAX_LENGTH (String.length (triple_text M m p)));
    [right; reflexivity |].
  rewrite trim_triple, match_FULL_triple, of_captures_triple.
  destruct (safe (triple M m p)); [left | right]; reflexivity.
Qed.

(** *** Ranges built from a printed triple *)

Lemma range_form_digit (c : ascii) (s : string) :
  is_digit c = true -> range_form (String c s) = (exactly, String c s).
Proof. by_cases_on c. Qed.

Lemma range_form_triple (M m p : N) :
  range_form (triple_text M m p) = (exactly, triple_text M m p).
Proof.
  unfold triple_text.
  pose proof (show_N_nonempty M) as Hne.
  pose proof (show_N_digits M) as Hd.
  destruct (show_N M) as [| c s]; [contradiction |].
  simpl in Hd. apply andb_true_iff in Hd. destruct Hd as [Hc _].
  apply (range_form_digit c _ Hc).
Qed.

Lemma new_Range_of_form (mk : SemVer -> list comparator) (range : string) (M m p : N) :
  range_form range = (mk, triple_text M m p) ->
  String.length range <= S (String.length (triple_text M m p)) ->
  safe (triple M m p) = true ->
  new_Range range
  = Returns (if forallb (fun c => safe (snd c)) (mk (triple M m p))
             then Some (mk (triple M m p)) else None).
Proof.
  intros Hf Hl Hs. unfold new_Range.
  assert (Hlen : Nat.ltb MAX_LENGTH (String.length range) = false).
  { pose proof (triple_text_length M m p Hs) as H.
    apply Nat.ltb_ge in H. apply Nat.ltb_ge.
    revert Hs. unfold safe, triple. cbn [major minor patch].
    rewrite !andb_true_iff, !N.leb_le. intros [[HM Hm] Hp].
    pose proof (show_N_length M HM). pose proof (show_N_length m Hm).
    pose proof (show_N_length p Hp).
    unfold triple_text in Hl. rewrite !length_append in Hl.
    cbn [String.length] in Hl. unfold MAX_LENGTH. lia. }
  rewrite Hlen, Hf, match_FULL_triple, of_captures_triple, Hs.
  reflexivity.
Qed.

Lemma satisfies_of_form (mk : SemVer -> list comparator) (range : string)
    (a1 a2 a3 M m p : N) :
  range_form range = (mk, triple_text M m p) ->
  String.length range <= S (String.length (triple_text M m p)) ->
  safe (triple M m p) = true ->
  safe (triple a1 a2 a3) = true ->
  satisfies (triple_text a1 a2 a3) range
  = Returns (if forallb (fun c => safe (snd c)) (mk (triple M m p))
             then testSet (mk (triple M m p)) (triple a1 a2 a3) else false).
Proof.
  intros Hf Hl Hb Ha. unfold satisfies.
  rewrite (new_Range_of_form mk range M m p Hf Hl Hb).
  cbn [bind].
  destruct (forallb (fun c => safe (snd c)) (mk (triple M m p)));
    [| reflexivity].
  rewrite (new_SemVer_triple a1 a2 a3 Ha). reflexivity.
Qed.

Lemma gte_triples (a1 a2 a3 b1 b2 b3 : N) :
  safe (triple a1 a2 a3) = true -> safe (triple b1 b2 b3) = true ->
  gte (triple_text a1 a2 a3) (triple_text b1 b2 b3)
  = Returns (geb (triple a1 a2 a3) (triple b1 b2 b3)).
Proof.
  intros Ha Hb. unfold gte.
  rewrite (new_SemVer_triple _ _ _ Ha), (new_SemVer_triple _ _ _ Hb).
  reflexivity.
Qed.

End SemverFacts.

(* ================================================================= *)
(** ** The comparison policy *)

Module Comparison.
Import JS JSFacts semver SemverFacts.

(** [version] normalises to the three-component version [v]: [semverify]
    returns the text [major.minor.patch] of [v], a version without
    pre-release whose components are safe integers. *)
Definition normalized (version : string) (v : SemVer) : Prop :=
  semverify (Some version) = Returns (format v)
  /\ prerelease v = [] /\ safe v = true.

(** Semantic-version order on three-component versions: major, then minor,
    then patch, each compared as a number. *)
Definition version_ge (a b : SemVer) : Prop :=
  (major b < major a
   \/ (major a = major b
       /\ (minor b < minor a \/ (minor a = minor b /\ patch b <= patch a))))%N.

Definition same_version (a b : SemVer) : Prop :=
  major a = major b /\ minor a = minor b /\ patch a = patch b.

(** What [^b] leaves free: everything under the major for a major of 1 or
    more, the patch alone for [0.m] with [m] of 1 or more, nothing for
    [0.0]. *)
Definition same_caret_prefix (a b : SemVer) : Prop :=
  (major b <> 0 /\ major a = major b)%N
  \/ (major b = 0 /\ minor b <> 0 /\ major a = 0 /\ minor a = minor b)%N
  \/ (major b = 0 /\ minor b = 0 /\ same_version a b)%N.

(** Every component of [v] can still be incremented. *)
Definition below_max (v : SemVer) : Prop :=
  (major v < MAX_SAFE_INTEGER /\ minor v < MAX_SAFE_INTEGER
   /\ patch v < MAX_SAFE_INTEGER)%N.

(** The answer of [semver.satisfies] for a range made by [mk] from [b]. *)
Definition in_range (mk : SemVer -> list comparator) (a b : SemVer) : bool :=
  if forallb (fun c => safe (snd c)) (mk b) then testSet (mk b) a else false.

(** [compareBrowserSemvers] on versions that normalise: no exception, and
    the answer of the comparison the options select. *)
Lemma compareBrowserSemvers_normalized (versionA versionB : string)
    (options : Options) (a b : SemVer) :
  normalized versionA a -> normalized versionB b ->
  compareBrowserSemvers versionA versionB options
  = Returns (if allowHigherVersions options then geb a b
             else if ignoreMinor options then in_range caret a b
             else if ignorePatch options then in_range tilde a b
             else in_range exactly a b).
Proof.
  intros (HA & Hpa & Hsa) (HB & Hpb & Hsb).
  destruct a as [a1 a2 a3 pa], b as [b1 b2 b3 pb].
  cbn [prerelease] in Hpa, Hpb. subst pa pb.
  change (mkSemVer a1 a2 a3 []) with (triple a1 a2 a3) in *.
  change (mkSemVer b1 b2 b3 []) with (triple b1 b2 b3) in *.
  rewrite format_triple in HA, HB.
  unfold compareBrowserSemvers. rewrite HA, HB. cbn [bind].
  destruct (allowHigherVersions options).
  - apply gte_triples; assumption.
  - unfold in_range.
    destruct (ignoreMinor options); [| destruct (ignorePatch options)];
      apply satisfies_of_form; auto using range_form_triple.
Qed.

Ltac triples a b :=
  let Ha := fresh in let Hb := fresh in
  intros Ha Hb;
  destruct a as [a1 a2 a3 pa], b as [b1 b2 b3 pb];
  cbn [prerelease] in Ha, Hb; subst pa pb.

Ltac by_comparisons :=
  repeat match goal with
         | |- context [N.compare ?x ?y] => destruct (N.compare_spec x y)
         end;
  cbn; try lia.

Lemma geb_version_ge (a b : SemVer) :
  prerelease a = [] -> prerelease b = [] ->
  (geb a b = true <-> version_ge a b).
Proof.
  triples a b.
  unfold geb, version_ge, compare, comparePre, compareMain.
  cbn [major minor patch prerelease].
  by_comparisons; split; intro; try discriminate; try reflexivity; lia.
Qed.

Lemma N_leb_max (n : N) : (n < MAX_SAFE_INTEGER)%N ->
  N.leb n MAX_SAFE_INTEGER = true /\ N.leb (n + 1) MAX_SAFE_INTEGER = true.
Proof. intro H. split; apply N.leb_le; lia. Qed.

(** A bare version accepts exactly itself. *)
Lemma in_range_exactly (a b : SemVer) :
  prerelease a = [] -> prerelease b = [] -> safe b = true ->
  (in_range exactly a b = true <-> same_version a b).
Proof.
  triples a b. intro Hs.
  unfold in_range, exactly. cbn [forallb snd]. rewrite Hs. cbn [andb].
  unfold testSet, test, same_version, compare, comparePre, compareMain.
  cbn [major minor patch prerelease forallb fst snd].
  by_comparisons; split; intro; try discriminate; try reflexivity; lia.
Qed.

(** [~b] accepts the versions from [b] on that keep its major and minor. *)
Lemma in_range_tilde (a b : SemVer) :
  prerelease a = [] -> prerelease b = [] -> below_max b ->
  (in_range tilde a b = true
   <-> version_ge a b /\ major a = major b /\ minor a = minor b).
Proof.
  triples a b. intros (HM & Hm & Hp). cbn [major minor patch] in HM, Hm, Hp.
  destruct (N_leb_max _ HM) as [HM0 HM1], (N_leb_max _ Hm) as [Hm0 Hm1],
    (N_leb_max _ Hp) as [Hp0 Hp1].
  unfold in_range, tilde, upper, safe.
  cbn [forallb snd major minor patch].
  rewrite HM0, Hm0, Hp0, Hm1. cbn [andb N.leb N.compare].
  unfold testSet, test, version_ge, compare, comparePre, compareMain.
  cbn [major minor patch prerelease forallb fst snd].
  by_comparisons; split; intro; try discriminate; try reflexivity; lia.
Qed.

(** [^b] accepts the versions from [b] on that keep what
    [same_caret_prefix] fixes. *)
Lemma in_range_caret (a b : SemVer) :
  prerelease a = [] -> prerelease b = [] -> below_max b ->
  (in_range caret a b = true <-> version_ge a b /\ same_caret_prefix a b).
Proof.
  triples a b. intros (HM & Hm & Hp). cbn [major minor patch] in HM, Hm, Hp.
  destruct (N_leb_max _ HM) as [HM0 HM1], (N_leb_max _ Hm) as [Hm0 Hm1],
    (N_leb_max _ Hp) as [Hp0 Hp1].
  unfold in_range, caret, upper, safe, same_caret_prefix, same_version.
  cbn [snd major minor patch].
  destruct (N.eqb_spec b1 0) as [E1 | E1];
    [destruct (N.eqb_spec b2 0) as [E2 | E2] |];
    cbn [negb forallb snd major minor patch];
    rewrite ?HM0, ?Hm0, ?Hp0, ?HM1, ?Hm1, ?Hp1; cbn [andb N.leb N.compare];
    unfold testSet, test, version_ge, compare, comparePre, compareMain;
    cbn [major minor patch prerelease forallb fst snd];
    by_comparisons; split; intro; try discriminate; try reflexivity; lia.
Qed.

End Comparison.

(* ================================================================= *)
(** ** The range expander *)

Module RangeExpansion.
Import JS JSFacts semver SemverFacts.

(** [steps_from endv v texts]: [texts] are the texts of the versions [v],
    [inc_minor v], [inc_minor (inc_minor v)], ..., as far as the list goes;
    each is a valid version not above [endv], and each step goes strictly
    up. *)
Inductive steps_from (endv : SemVer) : SemVer -> list string -> Prop :=
| steps_done (v : SemVer) : steps_from endv v []
| steps_more (v : SemVer) (text : string) (texts : list string) :
    new_SemVer false text = Returns v ->
    geb endv v = true ->
    compare v (inc_minor v) = Lt ->
    steps_from endv (inc_minor v) texts ->
    steps_from endv v (text :: texts).

(** [semver.inc(v, 'minor')] is strictly above [v]. *)
Lemma inc_minor_above (v : SemVer) : compare v (inc_minor v) = Lt.
Proof.
  destruct v as [M m p pre].
  unfold inc_minor, compare, compareMain, comparePre.
  cbn [major minor patch prerelease].
  rewrite N.compare_refl.
  destruct (N.eqb_spec p 0) as [E | E]; cbn [negb orb].
  - subst p. destruct pre as [| i pre].
    + replace (N.compare m (m + 1)) with Lt
        by (symmetry; apply N.compare_lt_iff; lia).
      reflexivity.
    + rewrite N.compare_refl. reflexivity.
  - replace (N.compare m (m + 1)) with Lt
      by (symmetry; apply N.compare_lt_iff; lia).
    reflexivity.
Qed.

(** The components of a version the constructor accepts are safe
    integers. *)
Lemma new_SemVer_safe (loose : bool) (text : string) (v : SemVer) :
  new_SemVer loose text = Returns v -> safe v = true.
Proof.
  unfold new_SemVer.
  destruct (Nat.ltb MAX_LENGTH (String.length text)); [discriminate |].
  destruct ((if loose then match_LOOSE else match_FULL) (trim text))
    as [[[[M m] p] pre] |]; [| discriminate].
  unfold of_captures.
  destruct (N.ltb_spec MAX_SAFE_INTEGER (to_number M)); [discriminate |].
  destruct (N.ltb_spec MAX_SAFE_INTEGER (to_number m)); [discriminate |].
  destruct (N.ltb_spec MAX_SAFE_INTEGER (to_number p)); [discriminate |].
  destruct (match pre with
            | Some t => mapM id_of_string (split "." t)
            | None => Returns []
            end); cbn [bind]; try discriminate.
  intro E. injection E as <-.
  unfold safe. cbn [major minor patch].
  rewrite !andb_true_iff, !N.leb_le. auto.
Qed.

Lemma rangeLoop_step (fuel : nat) (endSemver cur : string) (acc : list string) :
  rangeLoop (S fuel) endSemver (Some cur) acc
  = (go <- gte endSemver cur ;;
     if go : bool then
       next <- inc cur ;; rangeLoop fuel endSemver next (acc ++ [cur])
     else Returns acc).
Proof. reflexivity. Qed.

(** More fuel does not change what the loop returns. *)
Lemma rangeLoop_more_fuel (fuel : nat) :
  forall endSemver curVersion acc versions,
    rangeLoop fuel endSemver curVersion acc = Returns versions ->
    forall fuel', fuel <= fuel' ->
      rangeLoop fuel' endSemver curVersion acc = Returns versions.
Proof.
  induction fuel as [| fuel IH]; intros e c acc l H fuel' Hle;
    [discriminate |].
  destruct fuel' as [| fuel']; [lia |].
  cbn [rangeLoop] in *.
  destruct c as [cur |]; [| discriminate].
  destruct (gte e cur) as [[|] | | |]; cbn [bind] in *; try discriminate;
    [| exact H].
  destruct (inc cur) as [next | | |]; cbn [bind] in *; try discriminate.
  apply (IH _ _ _ _ H). lia.
Qed.

Section SameMajor.

Variable endSemver : string.
Variable endv : SemVer.
Hypothesis end_valid : new_SemVer false endSemver = Returns endv.
Hypothesis end_minor : (minor endv < MAX_SAFE_INTEGER)%N.

Let M : N := major endv.

Lemma safe_step (m : N) : (m <= minor endv + 1)%N -> safe (triple M m 0) = true.
Proof.
  intro Hm. pose proof (new_SemVer_safe _ _ _ end_valid) as Hs.
  unfold safe, triple in *. cbn [major minor patch].
  apply andb_true_iff in Hs. destruct Hs as [Hs _].
  apply andb_true_iff in Hs. destruct Hs as [HM _].
  fold M in HM. rewrite HM. cbn [andb].
  apply andb_true_iff. split; apply N.leb_le; unfold MAX_SAFE_INTEGER in *; lia.
Qed.

Lemma continue_bound (m : N) : geb endv (triple M m 0) = true -> (m <= minor endv)%N.
Proof.
  unfold geb, compare, compareMain, triple. cbn [major minor patch]. unfold M.
  rewrite N.compare_refl.
  destruct (N.compare_spec (minor endv) m) as [E | L | G]; intro Hgo;
    try lia; discriminate.
Qed.

(** The loop from a version [M.m.0] of the major of the end. *)
Lemma rangeLoop_same_major (k : nat) :
  forall (m : N) (acc : list string),
    (m <= minor endv + 1)%N ->
    N.to_nat (minor endv + 1 - m) <= k ->
    exists texts,
      rangeLoop (S k) endSemver (Some (triple_text M m 0)) acc
      = Returns (acc ++ texts)
      /\ steps_from endv (triple M m 0) texts.
Proof.
  induction k as [| k IH]; intros m acc Hm Hk;
    rewrite rangeLoop_step; unfold gte;
    rewrite end_valid, (new_SemVer_triple _ _ _ (safe_step m Hm));
    cbn [bind];
    destruct (geb endv (triple M m 0)) eqn:Hgo.
  - pose proof (continue_bound m Hgo). lia.
  - exists []. rewrite List.app_nil_r. split; [reflexivity | constructor].
  - pose proof (continue_bound m Hgo) as Hb.
    unfold inc. rewrite (new_SemVer_triple _ _ _ (safe_step m Hm)).
    cbn [bind].
    change (inc_minor (triple M m 0)) with (triple M (m + 1) 0).
    rewrite format_triple.
    destruct (IH (m + 1)%N (acc ++ [triple_text M m 0])) as (texts & Hrun & Hsteps);
      [lia | lia |].
    exists (triple_text M m 0 :: texts). split.
    + rewrite Hrun, <- List.app_assoc. reflexivity.
    + apply steps_more; auto using new_SemVer_triple, safe_step, inc_minor_above.
  - exists []. rewrite List.app_nil_r. split; [reflexivity | constructor].
Qed.

End SameMajor.

Lemma geb_same_major_minor (a b : SemVer) :
  geb b a = true -> major a = major b -> (minor a <= minor b)%N.
Proof.
  unfold geb, compare, compareMain. intros H E. rewrite E in H.
  rewrite N.compare_refl in H.
  destruct (N.compare_spec (minor b) (minor a)) as [Hm | Hm | Hm];
    try lia; discriminate.
Qed.

(** What [generateSemversInRange] runs once the token is split and both
    ends are converted. *)
Lemma generateSemversInRange_loop (fuel : nat) (versionRange start end_ : string)
    (rest : list string) (startSemver endSemver : string) :
  split "-" versionRange = start :: end_ :: rest ->
  semverify (Some start) = Returns startSemver ->
  semverify (Some end_) = Returns endSemver ->
  generateSemversInRange fuel versionRange
  = rangeLoop fuel endSemver (Some startSemver) [].
Proof.
  intros Hsplit Hs He. unfold generateSemversInRange.
  rewrite Hsplit. cbn [nth_error]. rewrite Hs, He. reflexivity.
Qed.

(** C1 (as amended).  For a range token whose end converts to a version
    strictly below the version of its start, the range expander returns
    the empty list, whatever the iteration budget (one evaluation of the
    loop condition is all it needs): the [while] loop tests before it
    pushes. *)
Theorem reversed_range_is_empty (fuel : nat) (versionRange start end_ : string)
    (rest : list string) (startSemver endSemver : string) (startv endv : SemVer) :
  split "-" versionRange = start :: end_ :: rest ->
  semverify (Some start) = Returns startSemver ->
  semverify (Some end_) = Returns endSemver ->
  new_SemVer false startSemver = Returns startv ->
  new_SemVer false endSemver = Returns endv ->
  compare endv startv = Lt ->
  generateSemversInRange (S fuel) versionRange = Returns [].
Proof.
  intros Hsplit Hs He Hvs Hve Hlt.
  rewrite (generateSemversInRange_loop _ _ _ _ _ _ _ Hsplit Hs He).
  rewrite rangeLoop_step. unfold gte. rewrite Hve, Hvs. cbn [bind].
  unfold geb. rewrite Hlt. reflexivity.
Qed.

Lemma reversed_range_is_empty_witness :
  generateSemversInRange 1 "10.2-10.0" = Returns [].
Proof.
  apply (reversed_range_is_empty 0 "10.2-10.0" "10.2" "10.0" [] "10.2.0" "10.0.0"
           (triple 10 2 0) (triple 10 0 0)); vm_compute; reflexivity.
Defined.

(** C1, the claim as stated, fails: on ["10.2-10.0"] the end [10.0.0] is
    strictly below the start [10.2.0], and the expander returns the empty
    list, not the list holding the start. *)
Lemma reversed_range_counterexample :
  semverify (Some "10.2") = Returns "10.2.0"
  /\ semverify (Some "10.0") = Returns "10.0.0"
  /\ gte "10.2.0" "10.0.0" = Returns true
  /\ gte "10.0.0" "10.2.0" = Returns false
  /\ generateSemversInRange 8 "10.2-10.0" = Returns []
  /\ generateSemversInRange 8 "10.2-10.0" <> Returns ["10.2.0"].
Proof.
  split; [vm_compute; reflexivity |].
  split; [vm_compute; reflexivity |].
  split; [vm_compute; reflexivity |].
  split; [vm_compute; reflexivity |].
  split; [vm_compute; reflexivity |].
  vm_compute. discriminate.
Qed.

(** C7 (as amended).  For a range token whose two ends convert to valid
    versions of the same major, the start not above the end and the minor
    of the end below [MAX_SAFE_INTEGER], the expander returns, for every
    budget from some [n] on, one list: it begins with the converted start,
    every element is a valid version not above the end, and each element
    after the first is [semver.inc(previous, 'minor')], strictly above the
    previous one. *)
Theorem same_major_range_expansion (versionRange start end_ : string)
    (rest : list string) (startSemver endSemver : string) (startv endv : SemVer) :
  split "-" versionRange = start :: end_ :: rest ->
  semverify (Some start) = Returns startSemver ->
  semverify (Some end_) = Returns endSemver ->
  new_SemVer false startSemver = Returns startv ->
  new_SemVer false endSemver = Returns endv ->
  geb endv startv = true ->
  major startv = major endv ->
  (minor endv < MAX_SAFE_INTEGER)%N ->
  exists (n : nat) (texts : list string),
    (forall fuel, n <= fuel ->
       generateSemversInRange fuel versionRange = Returns (startSemver :: texts))
    /\ steps_from endv startv (startSemver :: texts).
Proof.
  intros Hsplit Hs He Hvs Hve Hge Hmajor Hminor.
  pose proof (geb_same_major_minor _ _ Hge Hmajor) as Hle.
  set (m1 := minor (inc_minor startv)).
  assert (Hm1 : (m1 <= minor endv + 1)%N).
  { unfold m1, inc_minor. cbn [minor].
    destruct (negb (N.eqb (patch startv) 0)
              || match prerelease startv with [] => true | _ :: _ => false end)%bool;
      lia. }
  assert (Hnext : inc_minor startv = triple (major endv) m1 0).
  { unfold m1, inc_minor, triple. cbn [minor]. rewrite Hmajor. reflexivity. }
  destruct (rangeLoop_same_major endSemver endv Hve Hminor
              (N.to_nat (minor endv + 1 - m1)) m1 ([] ++ [startSemver]) Hm1
              (Nat.le_refl _))
    as (texts & Hrun & Hsteps).
  exists (S (S (N.to_nat (minor endv + 1 - m1)))), texts. split.
  - intros fuel Hfuel.
    rewrite (generateSemversInRange_loop _ _ _ _ _ _ _ Hsplit Hs He).
    apply rangeLoop_more_fuel with (fuel := S (S (N.to_nat (minor endv + 1 - m1))));
      [| exact Hfuel].
    rewrite rangeLoop_step. unfold gte. rewrite Hve, Hvs. cbn [bind].
    rewrite Hge. unfold inc. rewrite Hvs. cbn [bind].
    rewrite Hnext, format_triple. exact Hrun.
  - apply steps_more; auto using inc_minor_above.
    rewrite Hnext. exact Hsteps.
Qed.

Lemma same_major_range_expansion_witness :
  exists (n : nat) (texts : list string),
    (forall fuel, n <= fuel ->
       generateSemversInRange fuel "10.0-10.2" = Returns ("10.0.0" :: texts))
    /\ steps_from (triple 10 2 0) (triple 10 0 0) ("10.0.0" :: texts).
Proof.
  apply (same_major_range_expansion "10.0-10.2" "10.0" "10.2" [] "10.0.0" "10.2.0"
           (triple 10 0 0) (triple 10 2 0)); vm_compute; reflexivity.
Defined.

(** *** A range across two majors *)

Lemma rangeLoop_cross_major (fuel : nat) :
  forall (m : N) (acc versions : list string),
    rangeLoop fuel "10.2.0" (Some (triple_text 9 m 0)) acc <> Returns versions.
Proof.
  induction fuel as [| fuel IH]; intros m acc versions; [discriminate |].
  rewrite rangeLoop_step. unfold gte.
  replace (new_SemVer false "10.2.0") with (Returns (triple 10 2 0))
    by (vm_compute; reflexivity).
  cbn [bind].
  destruct (new_SemVer_triple_inv 9 m 0) as [Hcur | Hcur]; rewrite Hcur;
    cbn [bind]; [| discriminate].
  change (geb (triple 10 2 0) (triple 9 m 0)) with true. cbv iota.
  unfold inc. rewrite Hcur. cbn [bind].
  change (inc_minor (triple 9 m 0)) with (triple 9 (m + 1) 0).
  rewrite format_triple. apply IH.
Qed.

(** C7, the claim as stated, fails twice.  ["1.2.0beta-1.4"] has its start
    [1.2.0-beta] below its end [1.4.0], and the second element of the
    expansion, [1.2.0], keeps the minor of the first: [semver.inc] takes a
    pre-release of [x.y.0] to [x.y.0].  ["9.0-10.2"] has its start [9.0.0]
    below its end [10.2.0], and the expander returns no list for it under
    any budget: incrementing the minor of [9.x.0] never passes [10.2.0]. *)
Lemma range_expansion_counterexample :
  (gte "1.4.0" "1.2.0-beta" = Returns true
   /\ generateSemversInRange 8 "1.2.0beta-1.4"
      = Returns ["1.2.0-beta"; "1.2.0"; "1.3.0"; "1.4.0"])
  /\ semverify (Some "9.0") = Returns "9.0.0"
  /\ semverify (Some "10.2") = Returns "10.2.0"
  /\ gte "10.2.0" "9.0.0" = Returns true
  /\ ~ (exists fuel versions,
          generateSemversInRange fuel "9.0-10.2" = Returns versions).
Proof.
  split; [split; vm_compute; reflexivity |].
  split; [vm_compute; reflexivity |].
  split; [vm_compute; reflexivity |].
  split; [vm_compute; reflexivity |].
  intros (fuel & versions & H).
  rewrite (generateSemversInRange_loop fuel "9.0-10.2" "9.0" "10.2" [] "9.0.0" "10.2.0")
    in H by (vm_compute; reflexivity).
  exact (rangeLoop_cross_major fuel 0 [] versions H).
Qed.

End RangeExpansion.

(* ================================================================= *)
(** ** Version normalisation *)

Module Normalisation.
Import JS JSFacts.

(** An integer in decimal: digits without a leading zero, after a minus
    sign when the integer is negative. *)
Definition integer_text (s : string) : bool :=
  match s with
  | String "-" r => (semver.strict_numeric r && negb (String.eqb r "0"))%bool
  | _ => semver.strict_numeric s
  end.

(** The first three components all parse to safe integers, the range on
    which the model of numbers is exact. *)
Definition safe_components (version : option string) : Prop :=
  Forall (fun c => (Z.abs (parseNumber (Some c)) <= Z.of_N MAX_SAFE_INTEGER)%Z)
         (components version).

Lemma integer_text_digit (c : ascii) (s : string) :
  is_digit c = true -> integer_text (String c s) = semver.strict_numeric (String c s).
Proof. by_cases_on c. Qed.

Lemma integer_text_show_Z (z : Z) : integer_text (show_Z z) = true.
Proof.
  assert (Hn : forall n, integer_text (show_N n) = true).
  { intro n. pose proof (show_N_strict n) as Hs.
    pose proof (show_N_digits n) as Hd.
    destruct (show_N n) as [| c s]; [discriminate |].
    simpl in Hd. apply andb_true_iff in Hd. destruct Hd as [Hc _].
    rewrite (integer_text_digit c s Hc). exact Hs. }
  destruct z as [| p | p]; cbn [show_Z]; try apply Hn.
  cbn [integer_text]. rewrite show_N_strict. cbn [andb].
  destruct (String.eqb_spec (show_N (N.pos p)) "0") as [E | E]; [| reflexivity].
  pose proof (to_number_show_N (N.pos p)) as H. rewrite E in H. discriminate.
Qed.

Lemma digit_or_minus_not_dot (c : ascii) :
  (is_digit c || Ascii.eqb c "-")%bool = true -> Ascii.eqb c "." = false.
Proof. by_cases_on c. Qed.

Lemma show_Z_lacks_dot (z : Z) : lacks "." (show_Z z).
Proof.
  apply (lacks_of_all_chars _ (fun c => (is_digit c || Ascii.eqb c "-")%bool));
    [exact digit_or_minus_not_dot |].
  assert (Hn : forall n,
             all_chars (fun c => (is_digit c || Ascii.eqb c "-")%bool) (show_N n) = true).
  { intro n. pose proof (show_N_digits n) as Hd.
    induction (show_N n) as [| c s IH]; [reflexivity |].
    simpl in *. apply andb_true_iff in Hd. destruct Hd as [Hc Hs].
    rewrite Hc, (IH Hs). reflexivity. }
  destruct z as [| p | p]; cbn [show_Z]; try apply Hn;
    cbn [all_chars]; rewrite Hn; reflexivity.
Qed.

Lemma split_lacks (c : ascii) (s : string) : lacks c s -> split c s = [s].
Proof.
  induction s as [| d s IH]; cbn [lacks split]; [reflexivity |].
  intros [Hd Hs]. rewrite Hd, (IH Hs). reflexivity.
Qed.

Lemma split_append (c : ascii) (a r : string) :
  lacks c a -> split c (a ++ String c r) = a :: split c r.
Proof.
  induction a as [| d a IH]; cbn [lacks split append].
  - intros _. rewrite Ascii.eqb_refl. reflexivity.
  - intros [Hd Ha]. rewrite Hd, (IH Ha). reflexivity.
Qed.

(** Splitting the output of [getNormalizedVersion] gives back the three
    printed numbers. *)
Lemma split_getNormalizedVersion (version : option string) :
  split "." (getNormalizedVersion version)
  = [show_Z (parseNumber (nth_error (components version) 0));
     show_Z (parseNumber (nth_error (components version) 1));
     show_Z (parseNumber (nth_error (components version) 2))].
Proof.
  unfold getNormalizedVersion, join. cbn [String.concat].
  cbn [append].
  rewrite !split_append, split_lacks by apply show_Z_lacks_dot.
  reflexivity.
Qed.

(** A component that is absent, empty or without a leading integer
    becomes 0. *)
Lemma parseNumber_zero (c : option string) :
  c = None \/ c = Some "" \/ (exists s, c = Some s /\ parseInt s = NaN) ->
  parseNumber c = 0%Z.
Proof.
  intros [-> | [-> | (s & -> & H)]]; try reflexivity.
  unfold parseNumber. rewrite H. destruct (String.eqb s ""); reflexivity.
Qed.

Lemma read_sign_minus (s r : string) :
  read_sign s = (true, r) -> s = String "-" r.
Proof.
  destruct s as [| c s]; [discriminate |].
  by_cases_on c; intro H; injection H as <-; reflexivity.
Qed.

(** A component parses to a negative number only when a minus sign leads
    it, after white space. *)
Lemma parseNumber_negative (s : string) :
  (parseNumber (Some s) < 0)%Z ->
  exists r, drop_while is_space s = String "-" r.
Proof.
  unfold parseNumber, parseInt.
  destruct (String.eqb s ""); [lia |].
  destruct (read_sign (drop_while is_space s)) as [neg s2] eqn:Hsign.
  destruct (read_radix s2) as [radix s3].
  destruct (fst (span (is_radix_digit radix) s3)); [lia |].
  destruct neg; [| lia].
  intros _. exists s2. apply read_sign_minus, Hsign.
Qed.

(** C2 (as amended).  For every string, and for [undefined], whose first
    three components parse to safe integers, [getNormalizedVersion] returns
    (it cannot raise) a text of exactly three dot-separated integers, the
    [parseNumber] values of the first three components.  A component that
    is absent, empty or without a leading integer becomes 0; a component is
    negative only when a minus sign leads it. *)
Theorem getNormalizedVersion_three_integers (version : option string) :
  safe_components version ->
  exists z1 z2 z3 : Z,
    split "." (getNormalizedVersion version) = [show_Z z1; show_Z z2; show_Z z3]
    /\ z1 = parseNumber (nth_error (components version) 0)
    /\ z2 = parseNumber (nth_error (components version) 1)
    /\ z3 = parseNumber (nth_error (components version) 2)
    /\ integer_text (show_Z z1) = true
    /\ integer_text (show_Z z2) = true
    /\ integer_text (show_Z z3) = true
    /\ (forall c : option string,
          c = None \/ c = Some "" \/ (exists s, c = Some s /\ parseInt s = NaN) ->
          parseNumber c = 0%Z)
    /\ (forall s : string,
          (parseNumber (Some s) < 0)%Z ->
          exists r, drop_while is_space s = String "-" r).
Proof.
  intros _.
  exists (parseNumber (nth_error (components version) 0)),
         (parseNumber (nth_error (components version) 1)),
         (parseNumber (nth_error (components version) 2)).
  split; [apply split_getNormalizedVersion |].
  repeat (split; [reflexivity || apply integer_text_show_Z |]).
  split; [exact parseNumber_zero | exact parseNumber_negative].
Qed.

Lemma getNormalizedVersion_three_integers_witness :
  exists z1 z2 z3 : Z,
    split "." (getNormalizedVersion (Some "79.0.3945.73"))
    = [show_Z z1; show_Z z2; show_Z z3]
    /\ z1 = parseNumber (nth_error (components (Some "79.0.3945.73")) 0)
    /\ z2 = parseNumber (nth_error (components (Some "79.0.3945.73")) 1)
    /\ z3 = parseNumber (nth_error (components (Some "79.0.3945.73")) 2)
    /\ integer_text (show_Z z1) = true
    /\ integer_text (show_Z z2) = true
    /\ integer_text (show_Z z3) = true
    /\ (forall c : option string,
          c = None \/ c = Some "" \/ (exists s, c = Some s /\ parseInt s = NaN) ->
          parseNumber c = 0%Z)
    /\ (forall s : string,
          (parseNumber (Some s) < 0)%Z ->
          exists r, drop_while is_space s = String "-" r).
Proof.
  apply (getNormalizedVersion_three_integers (Some "79.0.3945.73")).
  unfold safe_components.
  change (components (Some "79.0.3945.73")) with ["79"; "0"; "3945"].
  repeat constructor; vm_compute; discriminate.
Defined.

(** C2, the claim as stated, fails: a component with a minus sign gives a
    negative component, and the second normaliser, [semverify], keeps text
    that is not a number. *)
Lemma normalization_counterexample :
  getNormalizedVersion (Some "-5") = "-5.0.0"
  /\ parseNumber (nth_error (components (Some "-5")) 0) = (-5)%Z
  /\ semverify (Some "garbage") = Returns "garbage.0.0"
  /\ semverify (Some "") = Returns ".0.0".
Proof. repeat split; vm_compute; reflexivity. Qed.

End Normalisation.

(* ================================================================= *)
(** ** The user-agent resolver *)

Module Resolver.
Import JS.

Section Rules.

Variable UAParser : string -> UA.parsed.

(** The tokens of the pre-stripped user agent. *)
Definition tokens (uaString : string) : UA.parsed := UAParser (strippedUA uaString).

Lemma eqb_false (a b : string) : a <> b -> String.eqb a b = false.
Proof. intro H. destruct (String.eqb_spec a b); [contradiction | reflexivity]. Qed.

(** C5.  When the tokenizer reports a browser name and the OS name [iOS]:
    a name that contains [Safari] resolves to family [iOS] with the
    normalised browser version, or the normalised OS version when the
    browser version is absent or empty; any other name resolves to family
    [iOS] with the normalised OS version. *)
Theorem resolveUserAgent_iOS (uaString name : string) :
  UA.name (UA.browser (tokens uaString)) = Some name ->
  name <> "" ->
  UA.name (UA.os (tokens uaString)) = Some "iOS" ->
  (includes name "Safari" = true ->
     resolveUserAgent UAParser uaString
     = mkBrowser "iOS"
         (getNormalizedVersion
            (if truthy (UA.version (UA.browser (tokens uaString)))
             then UA.version (UA.browser (tokens uaString))
             else UA.version (UA.os (tokens uaString)))))
  /\ (includes name "Safari" = false ->
       resolveUserAgent UAParser uaString
       = mkBrowser "iOS" (getNormalizedVersion (UA.version (UA.os (tokens uaString))))).
Proof.
  unfold tokens. intros Hname Hne Hos.
  unfold resolveUserAgent. rewrite Hname, Hos, (eqb_false _ _ Hne).
  split; intro Hs; rewrite Hs; reflexivity.
Qed.

(** Without a browser name from the tokenizer the resolver returns the
    sentinel. *)
Lemma resolveUserAgent_sentinel (uaString : string) :
  truthy (UA.name (UA.browser (tokens uaString))) = false ->
  resolveUserAgent UAParser uaString = mkBrowser "" "0.0.0".
Proof.
  unfold tokens, resolveUserAgent, truthy.
  destruct (UA.name (UA.browser (UAParser (strippedUA uaString)))) as [name |];
    [| reflexivity].
  destruct (String.eqb name ""); [reflexivity | discriminate].
Qed.

(** C10.  When the tokenizer reports a browser name that contains [Safari]
    and an OS name other than [iOS], and no family rule applies, the
    resolver returns the reported name as the family, with the normalised
    browser version. *)
Theorem resolveUserAgent_Safari_off_iOS (uaString name : string) :
  UA.name (UA.browser (tokens uaString)) = Some name ->
  includes name "Safari" = true ->
  equals (UA.name (UA.os (tokens uaString))) "iOS" = false ->
  includes name "Chrome Mobile" = false ->
  includes name "Chrome WebView" = false ->
  includes name "Chromium" = false ->
  includes name "Chrome Headless" = false ->
  (equals (UA.name (UA.engine (tokens uaString))) "Blink"
   && equals (UA.name (UA.os (tokens uaString))) "Android")%bool = false ->
  resolveUserAgent UAParser uaString
  = mkBrowser name (getNormalizedVersion (UA.version (UA.browser (tokens uaString)))).
Proof.
  unfold tokens. intros Hname Hs Hos H1 H2 H3 H4 Hblink.
  unfold resolveUserAgent. rewrite Hname, Hs, Hos, H1, H2, H3, H4, Hblink.
  cbn [andb orb].
  assert (Hne : forall t, includes t "Safari" = false -> String.eqb name t = false).
  { intros t Ht. destruct (String.eqb_spec name t) as [E | E]; [| reflexivity].
    subst t. congruence. }
  rewrite !Hne by reflexivity. reflexivity.
Qed.

End Rules.

End Resolver.

(* ================================================================= *)
(** ** The match engine *)

Module MatchEngine.
Import JS.

(** *** Equality up to letter case *)

(** [capital] and [small] are the capital and the small form of one letter.
    The letters below code 256 that have both forms are the 26 letters A-Z
    and the accented capitals U+00C0..U+00DE (the multiplication sign
    U+00D7 lies between them and is no letter); the small form is 32 code
    points after the capital. *)
Definition case_pair (capital small : ascii) : bool :=
  ((in_range 65 90 capital || in_range 192 214 capital || in_range 216 222 capital)
   && N.eqb (code small) (code capital + 32))%bool.

(** The same character, or the two forms of one letter. *)
Definition same_letter (c d : ascii) : bool :=
  (Ascii.eqb c d || case_pair c d || case_pair d c)%bool.

(** Case-insensitive equality of two strings: the same length, and the
    same letter at every position. *)
Fixpoint equal_ignoring_case (a b : string) : bool :=
  match a, b with
  | EmptyString, EmptyString => true
  | String c a', String d b' => (same_letter c d && equal_ignoring_case a' b')%bool
  | _, _ => false
  end.

(** The family test of the claim: the two families are equal up to letter
    case. *)
Definition same_family (browser resolvedUserAgent : Browser) : Prop :=
  equal_ignoring_case (family browser) (family resolvedUserAgent) = true.

(** Every character, by code. *)
Definition all_ascii : list ascii := map ascii_of_nat (seq 0 256).

Lemma all_ascii_complete (c : ascii) : In c all_ascii.
Proof.
  rewrite <- (ascii_nat_embedding c). apply in_map, in_seq.
  pose proof (nat_ascii_bounded c). lia.
Qed.

(** [toLowerCase] identifies exactly the two forms of a letter. *)
Lemma lower_char_same_letter (c d : ascii) :
  Ascii.eqb (lower_char c) (lower_char d) = same_letter c d.
Proof.
  assert (H : forallb (fun c => forallb (fun d =>
                Bool.eqb (Ascii.eqb (lower_char c) (lower_char d)) (same_letter c d))
              all_ascii) all_ascii = true)
    by (vm_compute; reflexivity).
  rewrite forallb_forall in H. specialize (H c (all_ascii_complete c)).
  rewrite forallb_forall in H. specialize (H d (all_ascii_complete d)).
  apply Bool.eqb_prop, H.
Qed.

Lemma toLowerCase_equal_ignoring_case (a b : string) :
  String.eqb (toLowerCase a) (toLowerCase b) = equal_ignoring_case a b.
Proof.
  revert b. induction a as [| c a IH]; intros [| d b]; try reflexivity.
  cbn [toLowerCase String.eqb equal_ignoring_case].
  rewrite lower_char_same_letter, IH. reflexivity.
Qed.

Lemma equal_ignoring_case_toLowerCase (a b : string) :
  equal_ignoring_case a b = true <-> toLowerCase a = toLowerCase b.
Proof. rewrite <- toLowerCase_equal_ignoring_case. apply String.eqb_eq. Qed.

(** In a locale without a rule of its own for the string,
    [toLocaleLowerCase] is [toLowerCase]. *)
Lemma toLocaleLowerCase_neutral (l : locale) (s : string) :
  language_neutral l s = true -> toLocaleLowerCase l s = Returns (toLowerCase s).
Proof. intro H. unfold toLocaleLowerCase. rewrite H. reflexivity. Qed.

(** The undetermined locale has no rule of its own. *)
Lemma language_neutral_und (s : string) : language_neutral Locale_und s = true.
Proof. induction s as [| c s IH]; [reflexivity | exact IH]. Qed.

(** Turkish has one for capital I, and for nothing else below code 256. *)
Lemma language_neutral_tr (s : string) :
  language_neutral Locale_tr s = true <-> lacks "I" s.
Proof.
  induction s as [| c s IH]; [split; [constructor | reflexivity] |].
  unfold language_neutral in *. cbn [all_chars lacks language_sensitive].
  rewrite Bool.andb_true_iff, IH, Bool.negb_true_iff.
  assert (E : N.eqb (code c) 73 = Ascii.eqb c "I").
  { destruct (Ascii.eqb_spec c "I") as [-> | Hne]; [reflexivity |].
    apply N.eqb_neq. intro Hc. apply Hne.
    rewrite <- (ascii_N_embedding c). unfold code in Hc. rewrite Hc. reflexivity. }
  rewrite E. reflexivity.
Qed.

Lemma some_true {A : Type} (f : A -> outcome bool) (l : list A) :
  (forall x, In x l -> exists r, f x = Returns r) ->
  exists r, some f l = Returns r
            /\ (r = true <-> exists x, In x l /\ f x = Returns true).
Proof.
  induction l as [| x l IH]; intro Hall.
  - exists false. split; [reflexivity |].
    split; [discriminate | intros (x & [] & _)].
  - destruct (Hall x (or_introl eq_refl)) as (r & Hr).
    cbn [some]. rewrite Hr. cbn [bind]. destruct r.
    + exists true. split; [reflexivity |].
      split; [| reflexivity]. intros _. exists x. split; [left; reflexivity | exact Hr].
    + destruct IH as (r & Hsome & Hiff);
        [intros y Hy; apply Hall; right; exact Hy |].
      exists r. split; [exact Hsome |]. rewrite Hiff. split.
      * intros (y & Hy & Hfy). exists y. split; [right; exact Hy | exact Hfy].
      * intros (y & [-> | Hy] & Hfy); [congruence |].
        exists y. split; assumption.
Qed.

(** The callback, once the locale is out of the way. *)
Lemma matchesTarget_neutral (l : locale) (resolved : Browser) (options : Options)
    (b : Browser) :
  language_neutral l (family resolved) = true ->
  matchesTarget l resolved options b
  = if equal_ignoring_case (family b) (family resolved)
    then compareBrowserSemvers (version resolved) (version b) options
    else Returns false.
Proof.
  intro Hl. unfold matchesTarget.
  rewrite (toLocaleLowerCase_neutral l _ Hl). cbn [bind].
  rewrite toLowerCase_equal_ignoring_case. reflexivity.
Qed.

Lemma matchesTarget_true (l : locale) (resolved : Browser) (options : Options)
    (b : Browser) :
  language_neutral l (family resolved) = true ->
  matchesTarget l resolved options b = Returns true <->
  same_family b resolved
  /\ compareBrowserSemvers (version resolved) (version b) options = Returns true.
Proof.
  intro Hl. rewrite (matchesTarget_neutral l resolved options b Hl).
  unfold same_family.
  destruct (equal_ignoring_case (family b) (family resolved)).
  - split; [intro H; split; [reflexivity | exact H] | intros [_ H]; exact H].
  - split; [discriminate | intros [H _]; discriminate].
Qed.

(** The callback does not tell the two forms of a letter apart. *)
Lemma matchesTarget_case (l : locale) (resolved resolved' : Browser)
    (options : Options) (b b' : Browser) :
  language_neutral l (family resolved) = true ->
  language_neutral l (family resolved') = true ->
  equal_ignoring_case (family b) (family b') = true -> version b = version b' ->
  equal_ignoring_case (family resolved) (family resolved') = true ->
  version resolved = version resolved' ->
  matchesTarget l resolved options b = matchesTarget l resolved' options b'.
Proof.
  intros Hl Hl' Hb Hbv Hr Hrv.
  rewrite (matchesTarget_neutral l resolved options b Hl),
          (matchesTarget_neutral l resolved' options b' Hl').
  apply equal_ignoring_case_toLowerCase in Hb, Hr.
  rewrite <- !toLowerCase_equal_ignoring_case, Hb, Hr, Hbv, Hrv. reflexivity.
Qed.

Lemma matchesAny_case (loc : locale) (resolved resolved' : Browser)
    (options : Options) (l l' : list Browser) :
  language_neutral loc (family resolved) = true ->
  language_neutral loc (family resolved') = true ->
  equal_ignoring_case (family resolved') (family resolved) = true ->
  version resolved' = version resolved ->
  Forall2 (fun b b' => equal_ignoring_case (family b') (family b) = true
                       /\ version b' = version b) l l' ->
  matchesAny loc l' resolved' options = matchesAny loc l resolved options.
Proof.
  intros Hl Hl' Hf Hv Hall. unfold matchesAny.
  induction Hall as [| b b' l l' [Hbf Hbv] _ IH]; [reflexivity |].
  cbn [some].
  rewrite (matchesTarget_case loc resolved' resolved options b' b Hl' Hl Hbf Hbv Hf Hv), IH.
  reflexivity.
Qed.

Lemma toLowerCase_empty (s : string) : toLowerCase s = "" -> s = "".
Proof. destruct s; [reflexivity | discriminate]. Qed.

(** The empty family equals no non-empty family, in every locale. *)
Lemma matchesAny_empty_family (loc : locale) (version : string) (options : Options)
    (l : list Browser) :
  Forall (fun b => family b <> "") l ->
  matchesAny loc l (mkBrowser "" version) options = Returns false.
Proof.
  unfold matchesAny.
  induction 1 as [| b l Hb _ IH]; [reflexivity |].
  cbn [some]. unfold matchesTarget at 1.
  cbn [family]. rewrite (toLocaleLowerCase_neutral loc "" eq_refl).
  cbn [bind toLowerCase].
  destruct (String.eqb_spec (toLowerCase (family b)) "") as [E | E].
  - exfalso. apply Hb, toLowerCase_empty, E.
  - cbn [bind]. exact IH.
Qed.

Section Engine.

Variable UAParser : string -> UA.parsed.
Variable browserslist : option (list string) -> option string -> string -> outcome (list string).
Variable cwd : string.
Variable hostLocale : locale.

(** [matchesUA] once the query engine and the list parser have returned. *)
Lemma matchesUA_matchesAny (fuel : nat) (uaString : string) (o : opts.t)
    (tokens : list string) (parsedBrowsers : list Browser) :
  browserslist (normalizedQuery o) (opts.env o) (configPath cwd o) = Returns tokens ->
  parseBrowsersList fuel tokens = Returns parsedBrowsers ->
  matchesUA UAParser browserslist cwd hostLocale fuel uaString o
  = matchesAny hostLocale parsedBrowsers (resolveUserAgent UAParser uaString)
      (mergeOptions o).
Proof.
  intros Hq Hp. unfold matchesUA. rewrite Hq. cbn [bind]. rewrite Hp. reflexivity.
Qed.

(** C4.  Once the query engine and the list parser have returned the
    target list, in a host locale that has no lower-case rule of its own
    for a character of the resolved family, and provided no comparison
    against a target of the resolved family raises, [matchesUA] returns
    [true] exactly when some target has the resolved family up to letter
    case ([equal_ignoring_case], which is defined without reference to the
    code) and a version that [compareBrowserSemvers] accepts with the
    resolved version as candidate and the target version as reference.
    Changing letter case in the resolved family or in target families
    changes nothing. *)
Theorem matchesUA_iff_some_target (fuel : nat) (uaString : string) (o : opts.t)
    (tokens : list string) (parsedBrowsers : list Browser) :
  let resolved := resolveUserAgent UAParser uaString in
  let options := mergeOptions o in
  browserslist (normalizedQuery o) (opts.env o) (configPath cwd o) = Returns tokens ->
  parseBrowsersList fuel tokens = Returns parsedBrowsers ->
  language_neutral hostLocale (family resolved) = true ->
  (forall b, In b parsedBrowsers -> same_family b resolved ->
     exists r, compareBrowserSemvers (version resolved) (version b) options = Returns r) ->
  (exists r,
     matchesUA UAParser browserslist cwd hostLocale fuel uaString o = Returns r
     /\ (r = true <->
         exists b, In b parsedBrowsers /\ same_family b resolved
                   /\ compareBrowserSemvers (version resolved) (version b) options
                      = Returns true))
  /\ (forall (resolved' : Browser) (parsedBrowsers' : list Browser),
        language_neutral hostLocale (family resolved') = true ->
        equal_ignoring_case (family resolved') (family resolved) = true ->
        version resolved' = version resolved ->
        Forall2 (fun b b' => equal_ignoring_case (family b') (family b) = true
                             /\ version b' = version b)
                parsedBrowsers parsedBrowsers' ->
        matchesAny hostLocale parsedBrowsers' resolved' options
        = matchesUA UAParser browserslist cwd hostLocale fuel uaString o).
Proof.
  intros resolved options Hq Hp Hl Hok.
  rewrite (matchesUA_matchesAny _ _ _ _ _ Hq Hp).
  fold resolved options. split.
  - assert (Hall : forall b, In b parsedBrowsers ->
                     exists r, matchesTarget hostLocale resolved options b = Returns r).
    { intros b Hb. rewrite (matchesTarget_neutral hostLocale resolved options b Hl).
      destruct (equal_ignoring_case (family b) (family resolved)) eqn:E;
        [apply (Hok b Hb E) | exists false; reflexivity]. }
    destruct (some_true (matchesTarget hostLocale resolved options) parsedBrowsers Hall)
      as (r & Hsome & Hiff).
    exists r. split; [exact Hsome |]. rewrite Hiff.
    split; intros (b & Hb & H); exists b; (split; [exact Hb |]).
    + exact (proj1 (matchesTarget_true hostLocale resolved options b Hl) H).
    + exact (proj2 (matchesTarget_true hostLocale resolved options b Hl) H).
  - intros resolved' parsedBrowsers' Hl' Hf Hv Hall.
    apply matchesAny_case; assumption.
Qed.

(** C8.  Without a browser name from the tokenizer, [resolveUserAgent]
    returns the sentinel [{family: '', version: '0.0.0'}] (it is a total
    function: no input makes it raise), and [matchesUA] returns [false] on
    every target list whose families are all non-empty, in every host
    locale. *)
Theorem unresolved_agent_matches_nothing (fuel : nat) (uaString : string) (o : opts.t)
    (tokens : list string) (parsedBrowsers : list Browser) :
  truthy (UA.name (UA.browser (UAParser (strippedUA uaString)))) = false ->
  browserslist (normalizedQuery o) (opts.env o) (configPath cwd o) = Returns tokens ->
  parseBrowsersList fuel tokens = Returns parsedBrowsers ->
  Forall (fun b => family b <> "") parsedBrowsers ->
  resolveUserAgent UAParser uaString = mkBrowser "" "0.0.0"
  /\ matchesUA UAParser browserslist cwd hostLocale fuel uaString o = Returns false.
Proof.
  intros Hname Hq Hp Hfam.
  pose proof (Resolver.resolveUserAgent_sentinel UAParser uaString Hname) as Hr.
  split; [exact Hr |].
  rewrite (matchesUA_matchesAny _ _ _ _ _ Hq Hp), Hr.
  apply matchesAny_empty_family, Hfam.
Qed.

End Engine.

End MatchEngine.

(* ================================================================= *)
(** ** Sample collaborators and inputs *)

Module Examples.
Import JS.

(** A tokenizer that knows two browsers: Safari on an iPhone and Safari on
    a Mac; it reports nothing for any other user agent. *)
Definition sample_UAParser (ua : string) : UA.parsed :=
  if includes ua "iPhone" then
    UA.mkParsed (UA.mkItem (Some "Mobile Safari") (Some "13.0.4"))
                (UA.mkItem (Some "iOS") (Some "13.3"))
                (UA.mkItem (Some "WebKit") (Some "605.1.15"))
  else if includes ua "Macintosh" then
    UA.mkParsed (UA.mkItem (Some "Safari") (Some "13.0.5"))
                (UA.mkItem (Some "Mac OS") (Some "10.15.3"))
                (UA.mkItem (Some "WebKit") (Some "605.1.15"))
  else
    UA.mkParsed (UA.mkItem None None) (UA.mkItem None None) (UA.mkItem None None).

(** A query engine that answers every query with the same three tokens. *)
Definition sample_browserslist (queries : option (list string)) (env : option string)
    (path : string) : outcome (list string) :=
  Returns ["ios_saf 13.0-13.3"; "safari 13.0"; "safari TP"].

Definition chrome_on_iPhone : string :=
  "Mozilla/5.0 (iPhone; CPU iPhone OS 13_3 like Mac OS X) AppleWebKit/605.1.15 (KHTML, like Gecko) CriOS/79.0.3945.73 Mobile/15E148 Safari/605.1".

Definition safari_on_Mac : string :=
  "Mozilla/5.0 (Macintosh; Intel Mac OS X 10_15_3) AppleWebKit/605.1.15 (KHTML, like Gecko) Version/13.0.5 Safari/605.1.15".

Definition no_opts : opts.t := opts.mk None None None None None None.

Definition sample_targets : list Browser :=
  [mkBrowser "iOS" "13.0.0"; mkBrowser "iOS" "13.1.0"; mkBrowser "iOS" "13.2.0";
   mkBrowser "iOS" "13.3.0"; mkBrowser "safari" "13.0"].

End Examples.

(* ================================================================= *)
(** ** Properties of the comparison policy *)

Module Policy.
Import JS semver SemverFacts Comparison Examples.

(** C3.  The caller's comparison options win over the defaults
    [ignorePatch: true] and [ignoreMinor: false]; and under
    [{ignorePatch: false}], with no [ignoreMinor] and no
    [allowHigherVersions], a candidate matches a target exactly when their
    normalised three-component versions are equal: the patch is not
    ignored. *)
Theorem caller_options_take_precedence :
  (forall (o : opts.t) (flag : bool),
     (opts.ignorePatch o = Some flag -> ignorePatch (mergeOptions o) = flag)
     /\ (opts.ignoreMinor o = Some flag -> ignoreMinor (mergeOptions o) = flag)
     /\ (opts.allowHigherVersions o = Some flag ->
         allowHigherVersions (mergeOptions o) = flag)
     /\ (opts.ignorePatch o = None -> ignorePatch (mergeOptions o) = true)
     /\ (opts.ignoreMinor o = None -> ignoreMinor (mergeOptions o) = false))
  /\ (forall (o : opts.t) (versionA versionB : string) (a b : SemVer),
        opts.ignorePatch o = Some false ->
        opts.ignoreMinor o = None ->
        opts.allowHigherVersions o = None ->
        normalized versionA a -> normalized versionB b ->
        exists r,
          compareBrowserSemvers versionA versionB (mergeOptions o) = Returns r
          /\ (r = true <-> same_version a b)).
Proof.
  split.
  - intros o flag. unfold mergeOptions. cbn [ignorePatch ignoreMinor allowHigherVersions].
    repeat split; intros ->; reflexivity.
  - intros o versionA versionB a b HP Hm Hh HA HB.
    rewrite (compareBrowserSemvers_normalized _ _ _ a b HA HB).
    unfold mergeOptions. rewrite HP, Hm, Hh.
    cbn [ignorePatch ignoreMinor allowHigherVersions].
    eexists. split; [reflexivity |].
    destruct HA as (_ & Hpa & _), HB as (_ & Hpb & Hsb).
    apply in_range_exactly; assumption.
Qed.

Lemma caller_options_take_precedence_witness :
  exists r,
    compareBrowserSemvers "10.1.5" "10.1.9"
      (mergeOptions (opts.mk None None None None (Some false) None)) = Returns r
    /\ (r = true <-> same_version (triple 10 1 5) (triple 10 1 9)).
Proof.
  apply (proj2 caller_options_take_precedence
           (opts.mk None None None None (Some false) None) "10.1.5" "10.1.9"
           (triple 10 1 5) (triple 10 1 9));
    try reflexivity; repeat split; vm_compute; reflexivity.
Defined.

(** C6.  With [allowHigherVersions] set, whatever [ignorePatch] and
    [ignoreMinor] are, the comparison is true exactly when the normalised
    candidate is at or above the normalised reference in semantic-version
    order.  Candidate [12.0.0] matches reference [10.0.0] with
    [allowHigherVersions: true], and does not with [false] or without the
    option, the other options at their defaults. *)
Theorem allowHigherVersions_is_gte :
  (forall (versionA versionB : string) (options : Options) (a b : SemVer),
     allowHigherVersions options = true ->
     normalized versionA a -> normalized versionB b ->
     exists r,
       compareBrowserSemvers versionA versionB options = Returns r
       /\ (r = true <-> version_ge a b))
  /\ compareBrowserSemvers "12.0.0" "10.0.0"
       (mergeOptions (opts.mk None None None None None (Some true))) = Returns true
  /\ compareBrowserSemvers "12.0.0" "10.0.0"
       (mergeOptions (opts.mk None None None None None (Some false))) = Returns false
  /\ compareBrowserSemvers "12.0.0" "10.0.0" (mergeOptions no_opts) = Returns false.
Proof.
  split; [| repeat split; vm_compute; reflexivity].
  intros versionA versionB options a b Hh HA HB.
  rewrite (compareBrowserSemvers_normalized _ _ _ a b HA HB), Hh.
  eexists. split; [reflexivity |].
  destruct HA as (_ & Hpa & _), HB as (_ & Hpb & _).
  apply geb_version_ge; assumption.
Qed.

Lemma allowHigherVersions_is_gte_witness :
  exists r,
    compareBrowserSemvers "12.0.0" "10.0.0" (mkOptions true false true) = Returns r
    /\ (r = true <-> version_ge (triple 12 0 0) (triple 10 0 0)).
Proof.
  apply (proj1 allowHigherVersions_is_gte "12.0.0" "10.0.0" (mkOptions true false true)
           (triple 12 0 0) (triple 10 0 0));
    try reflexivity; repeat split; vm_compute; reflexivity.
Defined.

(** C9 (as amended).  With [ignoreMinor] set and [allowHigherVersions] not
    set, [ignorePatch] makes no difference; and for a reference whose
    components can still be incremented, the candidate qualifies exactly
    when it satisfies the caret range of the reference: it is at or above
    the reference, and it has the major of the reference (for a reference
    [0.m.p] with [m] of 1 or more: major 0 and the same minor; for a
    reference [0.0.p]: the same version). *)
Theorem ignoreMinor_is_caret_range :
  (forall (versionA versionB : string) (options : Options),
     ignoreMinor options = true -> allowHigherVersions options = false ->
     compareBrowserSemvers versionA versionB options
     = compareBrowserSemvers versionA versionB (mkOptions true false false))
  /\ (forall (versionA versionB : string) (options : Options) (a b : SemVer),
        ignoreMinor options = true -> allowHigherVersions options = false ->
        normalized versionA a -> normalized versionB b -> below_max b ->
        exists r,
          compareBrowserSemvers versionA versionB options = Returns r
          /\ (r = true <-> version_ge a b /\ same_caret_prefix a b)).
Proof.
  split.
  - intros versionA versionB options Hm Hh.
    unfold compareBrowserSemvers. rewrite Hm, Hh.
    cbn [ignoreMinor ignorePatch allowHigherVersions].
    destruct (ignorePatch options); reflexivity.
  - intros versionA versionB options a b Hm Hh HA HB Hmax.
    rewrite (compareBrowserSemvers_normalized _ _ _ a b HA HB), Hm, Hh.
    eexists. split; [reflexivity |].
    destruct HA as (_ & Hpa & _), HB as (_ & Hpb & _).
    apply in_range_caret; assumption.
Qed.

Lemma ignoreMinor_is_caret_range_witness :
  exists r,
    compareBrowserSemvers "10.3.1" "10.2.0" (mkOptions true true false) = Returns r
    /\ (r = true <-> version_ge (triple 10 3 1) (triple 10 2 0)
                     /\ same_caret_prefix (triple 10 3 1) (triple 10 2 0)).
Proof.
  apply (proj2 ignoreMinor_is_caret_range "10.3.1" "10.2.0" (mkOptions true true false)
           (triple 10 3 1) (triple 10 2 0));
    try reflexivity; repeat split; vm_compute; reflexivity.
Defined.

(** C9, the claim as stated, fails: candidate [10.1.0] has the major of
    reference [10.2.0], and with both options set it does not qualify,
    because it is below the reference. *)
Lemma ignoreMinor_counterexample :
  normalized "10.1.0" (triple 10 1 0)
  /\ normalized "10.2.0" (triple 10 2 0)
  /\ major (triple 10 1 0) = major (triple 10 2 0)
  /\ compareBrowserSemvers "10.1.0" "10.2.0" (mkOptions true true false)
     = Returns false.
Proof. repeat split; vm_compute; reflexivity. Qed.

End Policy.

(* ================================================================= *)
(** ** The theorems at the sample inputs *)

Module Scenarios.
Import JS Examples.

Lemma resolveUserAgent_iOS_witness :
  resolveUserAgent sample_UAParser chrome_on_iPhone = mkBrowser "iOS" "13.0.4".
Proof.
  refine (proj1 (Resolver.resolveUserAgent_iOS sample_UAParser chrome_on_iPhone
                   "Mobile Safari" _ _ _) _).
  - vm_compute. reflexivity.
  - discriminate.
  - vm_compute. reflexivity.
  - vm_compute. reflexivity.
Defined.

Lemma resolveUserAgent_Safari_off_iOS_witness :
  resolveUserAgent sample_UAParser safari_on_Mac = mkBrowser "Safari" "13.0.5".
Proof.
  refine (Resolver.resolveUserAgent_Safari_off_iOS sample_UAParser safari_on_Mac
            "Safari" _ _ _ _ _ _ _ _); vm_compute; reflexivity.
Defined.

Lemma unresolved_agent_matches_nothing_witness :
  resolveUserAgent sample_UAParser "curl/7.64.1" = mkBrowser "" "0.0.0"
  /\ matchesUA sample_UAParser sample_browserslist "/" Locale_tr 8 "curl/7.64.1" no_opts
     = Returns false.
Proof.
  refine (MatchEngine.unresolved_agent_matches_nothing sample_UAParser
            sample_browserslist "/" Locale_tr 8 "curl/7.64.1" no_opts
            ["ios_saf 13.0-13.3"; "safari 13.0"; "safari TP"] sample_targets _ _ _ _).
  - vm_compute. reflexivity.
  - reflexivity.
  - vm_compute. reflexivity.
  - repeat constructor; discriminate.
Defined.

(** The sample targets in capital letters. *)
Definition capital_targets : list Browser :=
  [mkBrowser "IOS" "13.0.0"; mkBrowser "IOS" "13.1.0"; mkBrowser "IOS" "13.2.0";
   mkBrowser "IOS" "13.3.0"; mkBrowser "SAFARI" "13.0"].

(** The end-to-end scenario: Safari on a Mac resolves to [Safari 13.0.5],
    which the target [safari 13.0] accepts under the default options, the
    two families differing in the case of one letter; and the same holds
    with the targets in capital letters and the resolved family in small
    ones. *)
Lemma matchesUA_iff_some_target_witness :
  matchesUA sample_UAParser sample_browserslist "/" Locale_und 8 safari_on_Mac no_opts
  = Returns true
  /\ matchesAny Locale_und capital_targets (mkBrowser "safari" "13.0.5")
       (mergeOptions no_opts)
     = Returns true.
Proof.
  destruct (MatchEngine.matchesUA_iff_some_target sample_UAParser sample_browserslist
              "/" Locale_und 8 safari_on_Mac no_opts
              ["ios_saf 13.0-13.3"; "safari 13.0"; "safari TP"] sample_targets)
    as [(r & Hr & Hiff) Hcase].
  - reflexivity.
  - vm_compute. reflexivity.
  - apply MatchEngine.language_neutral_und.
  - intros b Hb _.
    repeat (destruct Hb as [<- | Hb]; [eexists; vm_compute; reflexivity |]).
    destruct Hb.
  - assert (Htrue : matchesUA sample_UAParser sample_browserslist "/" Locale_und 8
                      safari_on_Mac no_opts = Returns true).
    { rewrite Hr. f_equal. apply Hiff.
      exists (mkBrowser "safari" "13.0").
      split; [do 4 right; left; reflexivity |].
      split; vm_compute; reflexivity. }
    split; [exact Htrue |].
    rewrite <- Htrue.
    apply (Hcase (mkBrowser "safari" "13.0.5") capital_targets);
      [vm_compute; reflexivity | vm_compute; reflexivity | vm_compute; reflexivity |].
    unfold sample_targets, capital_targets.
    repeat (constructor; [split; vm_compute; reflexivity |]). constructor.
Defined.

End Scenarios.

(* ================================================================= *)
(** ** More on version normalisation *)

Module NormalisationMore.
Import JS JSFacts Normalisation Examples.

Lemma is_radix_digit_10 (c : ascii) : is_radix_digit 10 c = is_digit c.
Proof. by_cases_on c. Qed.

Lemma all_chars_radix_10 (s : string) :
  all_chars (is_radix_digit 10) s = all_chars is_digit s.
Proof.
  induction s as [| c s IH]; [reflexivity |].
  cbn [all_chars]. rewrite is_radix_digit_10, IH. reflexivity.
Qed.

Lemma read_sign_digit (c : ascii) (s : string) :
  is_digit c = true -> read_sign (String c s) = (false, String c s).
Proof. by_cases_on c. Qed.

(** A number printed without a leading zero is read in radix 10. *)
Lemma read_radix_strict (s : string) :
  semver.strict_numeric s = true -> read_radix s = (10%N, s).
Proof.
  destruct s as [| c s]; [discriminate |].
  destruct s as [| c' s']; by_cases_on c.
Qed.

Lemma read_show_N (n : N) :
  match fst (span (is_radix_digit 10) (show_N n)) with
  | EmptyString => NaN
  | ds => Int (Z.of_N (digits_value 10 ds))
  end = Int (Z.of_N n).
Proof.
  rewrite <- (append_empty_r (show_N n)) at 1.
  rewrite (span_run (is_radix_digit 10) (show_N n) EmptyString)
    by (try (rewrite all_chars_radix_10; apply show_N_digits); exact I).
  cbn [fst].
  pose proof (to_number_show_N n) as Hv. unfold to_number in Hv.
  pose proof (show_N_nonempty n) as Hne.
  destruct (show_N n); [contradiction |]. rewrite Hv. reflexivity.
Qed.

Lemma drop_spaces_show_N (n : N) : drop_while is_space (show_N n) = show_N n.
Proof.
  pose proof (show_N_nonempty n) as Hne.
  pose proof (show_N_digits n) as Hd.
  destruct (show_N n) as [| c s]; [contradiction |].
  simpl in Hd. apply andb_true_iff in Hd. destruct Hd as [Hc _].
  apply drop_while_stop, digit_not_space, Hc.
Qed.

Lemma parseInt_show_N (n : N) : parseInt (show_N n) = Int (Z.of_N n).
Proof.
  unfold parseInt. rewrite drop_spaces_show_N.
  pose proof (show_N_nonempty n) as Hne.
  pose proof (show_N_digits n) as Hd.
  pose proof (read_radix_strict _ (show_N_strict n)) as Hr.
  pose proof (read_show_N n) as Hv.
  destruct (show_N n) as [| c s]; [contradiction |].
  simpl in Hd. apply andb_true_iff in Hd. destruct Hd as [Hc _].
  rewrite (read_sign_digit c s Hc), Hr. exact Hv.
Qed.

(** Reading back a printed integer gives the integer. *)
Lemma parseInt_show_Z (z : Z) : parseInt (show_Z z) = Int z.
Proof.
  destruct z as [| p | p]; cbn [show_Z Z.to_N].
  - exact (parseInt_show_N 0).
  - exact (parseInt_show_N (N.pos p)).
  - unfold parseInt.
    change (drop_while is_space (String "-" (show_N (N.pos p))))
      with (String "-" (show_N (N.pos p))).
    change (read_sign (String "-" (show_N (N.pos p))))
      with (true, show_N (N.pos p)).
    cbv beta iota.
    rewrite (read_radix_strict _ (show_N_strict (N.pos p))).
    pose proof (read_show_N (N.pos p)) as Hv.
    destruct (fst (span (is_radix_digit 10) (show_N (N.pos p))));
      [discriminate |].
    injection Hv as Hv. rewrite Hv. reflexivity.
Qed.

Lemma show_Z_nonempty (z : Z) : String.eqb (show_Z z) "" = false.
Proof.
  destruct z as [| p | p]; cbn [show_Z]; try reflexivity;
    pose proof (show_N_nonempty (Z.to_N (Z.pos p))) as H;
    destruct (show_N (Z.to_N (Z.pos p))); [contradiction | reflexivity].
Qed.

Lemma parseNumber_show_Z (z : Z) : parseNumber (Some (show_Z z)) = z.
Proof.
  unfold parseNumber. rewrite show_Z_nonempty, parseInt_show_Z. reflexivity.
Qed.

Lemma components_getNormalizedVersion (version : option string) :
  components (Some (getNormalizedVersion version))
  = [show_Z (parseNumber (nth_error (components version) 0));
     show_Z (parseNumber (nth_error (components version) 1));
     show_Z (parseNumber (nth_error (components version) 2))].
Proof.
  unfold components at 1. rewrite split_getNormalizedVersion. reflexivity.
Qed.

(** X1.  [getNormalizedVersion] is idempotent on every input whose first
    three components parse to safe integers: normalising its own output
    gives that output back. *)
Theorem getNormalizedVersion_idempotent (version : option string) :
  safe_components version ->
  getNormalizedVersion (Some (getNormalizedVersion version))
  = getNormalizedVersion version.
Proof.
  intros _.
  unfold getNormalizedVersion at 1.
  rewrite components_getNormalizedVersion. cbn [nth_error].
  rewrite !parseNumber_show_Z. reflexivity.
Qed.

Lemma getNormalizedVersion_idempotent_witness :
  getNormalizedVersion (Some (getNormalizedVersion (Some " -12abc.0x1F.")))
  = getNormalizedVersion (Some " -12abc.0x1F.").
Proof.
  apply (getNormalizedVersion_idempotent (Some " -12abc.0x1F.")).
  unfold safe_components.
  change (components (Some " -12abc.0x1F.")) with [" -12abc"; "0x1F"; ""].
  repeat constructor; vm_compute; discriminate.
Defined.

(** X2.  [getNormalizedVersion] reads the first three dot-separated
    components and nothing else: whatever follows a third dot does not
    change the result. *)
Theorem getNormalizedVersion_first_three (a b c rest : string) :
  lacks "." a -> lacks "." b -> lacks "." c ->
  getNormalizedVersion (Some (a ++ "." ++ b ++ "." ++ c ++ "." ++ rest)%string)
  = getNormalizedVersion (Some (a ++ "." ++ b ++ "." ++ c)%string).
Proof.
  intros Ha Hb Hc.
  assert (H1 : components (Some (a ++ "." ++ b ++ "." ++ c ++ "." ++ rest)%string)
               = [a; b; c]).
  { unfold components. cbn [append].
    rewrite !split_append by assumption. reflexivity. }
  assert (H2 : components (Some (a ++ "." ++ b ++ "." ++ c)%string) = [a; b; c]).
  { unfold components. cbn [append].
    rewrite !split_append, split_lacks by assumption. reflexivity. }
  unfold getNormalizedVersion. rewrite H1, H2. reflexivity.
Qed.

Lemma getNormalizedVersion_first_three_witness :
  getNormalizedVersion (Some "79.0.3945.73") = getNormalizedVersion (Some "79.0.3945").
Proof.
  apply (getNormalizedVersion_first_three "79" "0" "3945" "73");
    vm_compute; auto.
Defined.

Section ResolvedVersion.

Variable UAParser : string -> UA.parsed.

(** The three version tokens all have safe components. *)
Definition safe_tokens (t : UA.parsed) : Prop :=
  safe_components (UA.version (UA.browser t))
  /\ safe_components (UA.version (UA.os t))
  /\ safe_components (UA.version (UA.engine t)).

Lemma normalized_shape (v : option string) :
  exists z1 z2 z3 : Z,
    split "." (getNormalizedVersion v) = [show_Z z1; show_Z z2; show_Z z3].
Proof. do 3 eexists. apply split_getNormalizedVersion. Qed.

(** X3.  Whatever the tokenizer answers (with safe version components),
    the version [resolveUserAgent] returns is a text of exactly three
    dot-separated integers, on every one of its branches. *)
Theorem resolveUserAgent_version_shape (uaString : string) :
  safe_tokens (UAParser (strippedUA uaString)) ->
  exists z1 z2 z3 : Z,
    split "." (version (resolveUserAgent UAParser uaString))
    = [show_Z z1; show_Z z2; show_Z z3]
    /\ integer_text (show_Z z1) = true
    /\ integer_text (show_Z z2) = true
    /\ integer_text (show_Z z3) = true.
Proof.
  intros _.
  assert (H : exists v, version (resolveUserAgent UAParser uaString)
                        = getNormalizedVersion v).
  { unfold resolveUserAgent.
    destruct (UA.name (UA.browser (UAParser (strippedUA uaString)))) as [name |];
      [| exists None; reflexivity].
    repeat match goal with
           | |- context [if ?b then _ else _] => destruct b
           end; cbn [version];
      try (eexists; reflexivity); exists None; reflexivity. }
  destruct H as (v & ->).
  destruct (normalized_shape v) as (z1 & z2 & z3 & H).
  exists z1, z2, z3. split; [exact H |].
  repeat split; apply integer_text_show_Z.
Qed.

End ResolvedVersion.

Lemma resolveUserAgent_version_shape_witness :
  exists z1 z2 z3 : Z,
    split "." (version (resolveUserAgent sample_UAParser chrome_on_iPhone))
    = [show_Z z1; show_Z z2; show_Z z3]
    /\ integer_text (show_Z z1) = true
    /\ integer_text (show_Z z2) = true
    /\ integer_text (show_Z z3) = true.
Proof.
  apply (resolveUserAgent_version_shape sample_UAParser chrome_on_iPhone).
  unfold safe_tokens, safe_components.
  replace (sample_UAParser (strippedUA chrome_on_iPhone))
    with (UA.mkParsed (UA.mkItem (Some "Mobile Safari") (Some "13.0.4"))
                      (UA.mkItem (Some "iOS") (Some "13.3"))
                      (UA.mkItem (Some "WebKit") (Some "605.1.15")))
    by (vm_compute; reflexivity).
  cbn [UA.version UA.browser UA.os UA.engine].
  change (components (Some "13.0.4")) with ["13"; "0"; "4"].
  change (components (Some "13.3")) with ["13"; "3"].
  change (components (Some "605.1.15")) with ["605"; "1"; "15"].
  repeat split; repeat constructor; vm_compute; discriminate.
Defined.

End NormalisationMore.

(* ================================================================= *)
(** ** [semverify] on printed numbers *)

Module Semverify.
Import JS JSFacts semver SemverFacts Comparison Normalisation.

Lemma substring_all (s : string) : substring 0 (String.length s) s = s.
Proof. induction s as [| c s IH]; [reflexivity |]. cbn. rewrite IH. reflexivity. Qed.

Lemma substring_end (s : string) : substring (String.length s) 0 s = "".
Proof. induction s as [| c s IH]; [reflexivity |]. cbn. exact IH. Qed.

Lemma digit_not_loose_prefix (c : ascii) :
  is_digit c = true ->
  (Ascii.eqb c "v" || Ascii.eqb c "=" || is_space c)%bool = false.
Proof. by_cases_on c. Qed.

Lemma number_dot_loose (n : N) (r : string) :
  number_dot false (show_N n ++ String "." r) = Some (show_N n, r).
Proof.
  unfold number_dot.
  rewrite (span_run is_digit (show_N n) (String "." r))
    by (try apply show_N_digits; reflexivity).
  pose proof (show_N_nonempty n) as H.
  destruct (show_N n); [contradiction | reflexivity].
Qed.

(** A run of digits with nothing behind it is not a number followed by a
    dot. *)
Lemma number_dot_end (strict : bool) (n : N) : number_dot strict (show_N n) = None.
Proof.
  unfold number_dot.
  rewrite <- (append_empty_r (show_N n)) at 1.
  rewrite (span_run is_digit (show_N n) EmptyString)
    by (try apply show_N_digits; exact I).
  destruct (nonempty (show_N n) && (negb strict || strict_numeric (show_N n)))%bool;
    reflexivity.
Qed.

Lemma drop_loose_prefix (n : N) (r : string) :
  drop_while (fun c => (Ascii.eqb c "v" || Ascii.eqb c "=" || is_space c)%bool)
             (show_N n ++ r)
  = (show_N n ++ r)%string.
Proof.
  pose proof (show_N_nonempty n) as Hne.
  pose proof (show_N_digits n) as Hd.
  destruct (show_N n) as [| c s]; [contradiction |].
  simpl in Hd. apply andb_true_iff in Hd. destruct Hd as [Hc _].
  cbn [append]. apply drop_while_stop, digit_not_loose_prefix, Hc.
Qed.

Lemma cut_plus_digits (s : string) :
  all_chars digit_or_dot s = true -> cut "+" s = (s, None).
Proof.
  intro H. apply cut_lacks.
  apply (lacks_of_all_chars _ digit_or_dot); [exact digit_or_dot_not_plus | exact H].
Qed.

(** The loose grammar reads a printed triple as its three numbers. *)
Lemma match_LOOSE_triple (M m p : N) :
  match_LOOSE (triple_text M m p) = Some (show_N M, show_N m, show_N p, None).
Proof.
  unfold match_LOOSE.
  rewrite cut_plus_digits by apply triple_text_chars.
  cbn [build_ok]. unfold triple_text.
  rewrite drop_loose_prefix. cbn [append].
  rewrite number_dot_loose, number_dot_loose.
  rewrite <- (append_empty_r (show_N p)) at 1.
  rewrite (span_run is_digit (show_N p) EmptyString)
    by (try apply show_N_digits; exact I).
  pose proof (show_N_nonempty p) as Hne.
  destruct (String.length (show_N p)) as [| k] eqn:Hlen.
  { destruct (show_N p); [contradiction | discriminate]. }
  cbn [loose_patch]. rewrite <- Hlen.
  rewrite Nat.sub_diag, substring_end, substring_all. reflexivity.
Qed.

(** The loose grammar rejects one or two printed numbers. *)
Lemma match_LOOSE_one (M : N) : match_LOOSE (show_N M) = None.
Proof.
  unfold match_LOOSE.
  rewrite cut_plus_digits by (apply digits_digit_or_dot, show_N_digits).
  cbn [build_ok].
  rewrite <- (append_empty_r (show_N M)) at 1.
  rewrite drop_loose_prefix, append_empty_r, number_dot_end. reflexivity.
Qed.

Lemma two_text_chars (M m : N) :
  all_chars digit_or_dot (show_N M ++ "." ++ show_N m) = true.
Proof.
  rewrite !all_chars_append. simpl.
  rewrite !digits_digit_or_dot by apply show_N_digits. reflexivity.
Qed.

Lemma match_LOOSE_two (M m : N) : match_LOOSE (show_N M ++ "." ++ show_N m) = None.
Proof.
  unfold match_LOOSE.
  rewrite cut_plus_digits by apply two_text_chars.
  cbn [build_ok].
  rewrite drop_loose_prefix. cbn [append].
  rewrite number_dot_loose, number_dot_end. reflexivity.
Qed.

Lemma trim_all_digits (s : string) :
  s <> EmptyString -> all_chars is_digit s = true -> trim s = s.
Proof.
  intros Hne Hd. unfold trim.
  assert (H1 : drop_while is_space s = s).
  { destruct s as [| c s]; [contradiction |]. simpl in Hd.
    apply andb_true_iff in Hd. destruct Hd as [Hc _].
    apply drop_while_stop, digit_not_space, Hc. }
  rewrite H1.
  assert (H2 : drop_while is_space (rev_string s) = rev_string s).
  { pose proof (all_chars_rev is_digit s) as Hr. rewrite Hd in Hr.
    assert (Hrne : rev_string s <> EmptyString).
    { destruct s as [| c s]; [contradiction |]. simpl.
      destruct (rev_string s); discriminate. }
    destruct (rev_string s) as [| c r]; [contradiction |]. simpl in Hr.
    apply andb_true_iff in Hr. destruct Hr as [Dc _].
    apply drop_while_stop, digit_not_space, Dc. }
  rewrite H2. apply rev_string_involutive.
Qed.

(** [semverify] of a text the loose grammar rejects pads its components. *)
Lemma semverify_rejected (s : string) :
  match_LOOSE (trim s) = None ->
  semverify (Some s) = Returns (join "." (pad3 (split "." s))).
Proof.
  intro H. unfold semverify, valid_loose, new_SemVer.
  destruct (Nat.ltb MAX_LENGTH (String.length s)); [reflexivity |].
  rewrite H. reflexivity.
Qed.

Lemma show_N_lacks_dot (n : N) : lacks "." (show_N n).
Proof.
  destruct n as [| q];
    [exact (show_Z_lacks_dot 0) | exact (show_Z_lacks_dot (Z.pos q))].
Qed.

Lemma semverify_one (M : N) :
  semverify (Some (show_N M)) = Returns (triple_text M 0 0).
Proof.
  rewrite semverify_rejected
    by (rewrite trim_all_digits by auto using show_N_nonempty, show_N_digits;
        apply match_LOOSE_one).
  rewrite split_lacks by apply show_N_lacks_dot. reflexivity.
Qed.

Lemma semverify_two (M m : N) :
  semverify (Some (show_N M ++ "." ++ show_N m)%string) = Returns (triple_text M m 0).
Proof.
  rewrite semverify_rejected.
  - cbn [append]. rewrite split_append, split_lacks by apply show_N_lacks_dot.
    reflexivity.
  - rewrite (trim_digits (show_N M) "." (show_N m))
      by auto using show_N_nonempty, show_N_digits.
    apply match_LOOSE_two.
Qed.

Lemma split_triple_text (M m p : N) :
  split "." (triple_text M m p) = [show_N M; show_N m; show_N p].
Proof.
  unfold triple_text. cbn [append].
  rewrite !split_append, split_lacks by apply show_N_lacks_dot. reflexivity.
Qed.

Lemma semverify_triple_any (M m p : N) :
  semverify (Some (triple_text M m p)) = Returns (triple_text M m p).
Proof.
  unfold semverify, valid_loose, new_SemVer.
  assert (Hpad : join "." (pad3 (split "." (triple_text M m p))) = triple_text M m p)
    by (rewrite split_triple_text; reflexivity).
  destruct (Nat.ltb MAX_LENGTH (String.length (triple_text M m p)));
    [cbn [bind]; rewrite Hpad; reflexivity |].
  rewrite trim_triple, match_LOOSE_triple, of_captures_triple.
  destruct (safe (triple M m p)); cbn [bind].
  - rewrite format_triple. reflexivity.
  - rewrite Hpad. reflexivity.
Qed.

(** X4.  [semverify] completes a version written as one, two or three
    decimal numbers with zeros: [M] becomes [M.0.0], [M.m] becomes [M.m.0],
    and [M.m.p] is returned as it is; it never raises on these. *)
Theorem semverify_pads_with_zeros (M m p : N) :
  semverify (Some (show_N M)) = Returns (triple_text M 0 0)
  /\ semverify (Some (show_N M ++ "." ++ show_N m)%string) = Returns (triple_text M m 0)
  /\ semverify (Some (triple_text M m p)) = Returns (triple_text M m p).
Proof.
  split; [apply semverify_one |].
  split; [apply semverify_two | apply semverify_triple_any].
Qed.

Lemma show_Z_nonnegative (z : Z) : (0 <= z)%Z -> show_Z z = show_N (Z.to_N z).
Proof. destruct z; [reflexivity | reflexivity | lia]. Qed.

(** X5.  What [getNormalizedVersion] returns is a fixed point of
    [semverify] and normalises to its own three numbers, whenever these are
    safe integers that are not negative: the version of a resolved browser
    reaches the comparison unchanged. *)
Theorem getNormalizedVersion_normalized (version : option string) :
  let z1 := parseNumber (nth_error (components version) 0) in
  let z2 := parseNumber (nth_error (components version) 1) in
  let z3 := parseNumber (nth_error (components version) 2) in
  (0 <= z1 <= Z.of_N MAX_SAFE_INTEGER)%Z ->
  (0 <= z2 <= Z.of_N MAX_SAFE_INTEGER)%Z ->
  (0 <= z3 <= Z.of_N MAX_SAFE_INTEGER)%Z ->
  semverify (Some (getNormalizedVersion version))
  = Returns (getNormalizedVersion version)
  /\ normalized (getNormalizedVersion version)
       (triple (Z.to_N z1) (Z.to_N z2) (Z.to_N z3)).
Proof.
  intros z1 z2 z3 H1 H2 H3.
  assert (Htext : getNormalizedVersion version
                  = triple_text (Z.to_N z1) (Z.to_N z2) (Z.to_N z3)).
  { unfold getNormalizedVersion, triple_text, join. cbn [String.concat].
    fold z1 z2 z3.
    rewrite (show_Z_nonnegative z1), (show_Z_nonnegative z2), (show_Z_nonnegative z3)
      by lia.
    reflexivity. }
  rewrite Htext. split; [apply semverify_triple_any |].
  unfold normalized. rewrite format_triple.
  split; [apply semverify_triple_any |].
  split; [reflexivity |].
  unfold safe, triple. cbn [major minor patch].
  rewrite !andb_true_iff, !N.leb_le. lia.
Qed.

Lemma getNormalizedVersion_normalized_witness :
  semverify (Some (getNormalizedVersion (Some "13.3"))) 
  = Returns (getNormalizedVersion (Some "13.3"))
  /\ normalized (getNormalizedVersion (Some "13.3")) (triple 13 3 0).
Proof.
  apply (getNormalizedVersion_normalized (Some "13.3")); vm_compute;
    split; discriminate.
Defined.

End Semverify.

(* ================================================================= *)
(** ** The default comparison *)

Module DefaultPolicy.
Import JS semver SemverFacts Comparison Examples.

(** X6.  Without [ignorePatch], [ignoreMinor] and [allowHigherVersions]
    from the caller, the defaults make the reference a tilde range: a
    candidate qualifies exactly when it has the major and the minor of the
    reference and a patch that is not below the patch of the reference.  A
    lower patch does not match. *)
Theorem default_options_are_tilde_range (o : opts.t) (versionA versionB : string)
    (a b : SemVer) :
  opts.ignorePatch o = None ->
  opts.ignoreMinor o = None ->
  opts.allowHigherVersions o = None ->
  normalized versionA a -> normalized versionB b -> below_max b ->
  exists r,
    compareBrowserSemvers versionA versionB (mergeOptions o) = Returns r
    /\ (r = true <->
        major a = major b /\ minor a = minor b /\ (patch b <= patch a)%N).
Proof.
  intros HP Hm Hh HA HB Hmax.
  rewrite (compareBrowserSemvers_normalized _ _ _ a b HA HB).
  unfold mergeOptions. rewrite HP, Hm, Hh.
  cbn [ignorePatch ignoreMinor allowHigherVersions].
  eexists. split; [reflexivity |].
  destruct HA as (_ & Hpa & _), HB as (_ & Hpb & _).
  rewrite (in_range_tilde a b Hpa Hpb Hmax).
  unfold version_ge. split.
  - intros (Hge & HM & Hmi). repeat split; try assumption. lia.
  - intros (HM & Hmi & Hpat). repeat split; try assumption. lia.
Qed.

Lemma default_options_are_tilde_range_witness :
  exists r,
    compareBrowserSemvers "10.1.5" "10.1.9" (mergeOptions no_opts) = Returns r
    /\ (r = true <->
        major (triple 10 1 5) = major (triple 10 1 9)
        /\ minor (triple 10 1 5) = minor (triple 10 1 9)
        /\ (patch (triple 10 1 9) <= patch (triple 10 1 5))%N).
Proof.
  apply (default_options_are_tilde_range no_opts "10.1.5" "10.1.9"
           (triple 10 1 5) (triple 10 1 9));
    try reflexivity; repeat split; vm_compute; reflexivity.
Defined.

End DefaultPolicy.

(* ================================================================= *)
(** ** The expansion of a range within one major *)

Module ExactExpansion.
Import JS JSFacts semver SemverFacts Comparison RangeExpansion.

(** [count] consecutive numbers from [m] on. *)
Fixpoint numbers_from (m : N) (count : nat) : list N :=
  match count with
  | O => []
  | S k => m :: numbers_from (m + 1) k
  end.

Lemma inc_minor_triple (M m p : N) : inc_minor (triple M m p) = triple M (m + 1) 0.
Proof.
  unfold inc_minor, triple. cbn [major minor patch prerelease].
  destruct (negb (N.eqb p 0)); reflexivity.
Qed.

Section OneMajor.

Variables M endMinor endPatch : N.
Variable endSemver : string.
Hypothesis end_text : endSemver = triple_text M endMinor endPatch.
Hypothesis end_safe : safe (triple M endMinor endPatch) = true.
Hypothesis end_minor : (endMinor < MAX_SAFE_INTEGER)%N.

Lemma minor_step_safe (m : N) : (m <= endMinor + 1)%N -> safe (triple M m 0) = true.
Proof.
  intro Hm. revert end_safe. unfold safe, triple. cbn [major minor patch].
  rewrite !andb_true_iff, !N.leb_le. unfold MAX_SAFE_INTEGER in *. lia.
Qed.

Lemma continue_iff (m : N) :
  geb (triple M endMinor endPatch) (triple M m 0) = (N.leb m endMinor).
Proof.
  unfold geb, compare, compareMain, comparePre, triple.
  cbn [major minor patch prerelease]. rewrite N.compare_refl.
  destruct (N.leb_spec m endMinor) as [H | H];
    destruct (N.compare_spec endMinor m) as [E | L | G]; try lia; try reflexivity.
  destruct (N.compare_spec endPatch 0); try reflexivity. lia.
Qed.

(** The loop from [M.m.0] emits [M.m.0], [M.(m+1).0], ... up to the minor
    of the end. *)
Lemma rangeLoop_minors (count : nat) :
  forall (m : N) (acc : list string),
    N.to_nat (endMinor + 1 - m) = count ->
    (m <= endMinor + 1)%N ->
    rangeLoop (S count) endSemver (Some (triple_text M m 0)) acc
    = Returns (acc ++ map (fun k => triple_text M k 0) (numbers_from m count)).
Proof.
  induction count as [| count IH]; intros m acc Hc Hm;
    rewrite rangeLoop_step; unfold gte;
    rewrite end_text, (new_SemVer_triple _ _ _ end_safe),
      (new_SemVer_triple _ _ _ (minor_step_safe m Hm));
    cbn [bind]; rewrite continue_iff.
  - assert (E : N.leb m endMinor = false) by (apply N.leb_gt; lia).
    rewrite E. cbn [numbers_from map]. rewrite List.app_nil_r. reflexivity.
  - assert (E : N.leb m endMinor = true) by (apply N.leb_le; lia).
    rewrite E. unfold inc.
    rewrite (new_SemVer_triple _ _ _ (minor_step_safe m Hm)).
    cbn [bind].
    change (inc_minor (triple M m 0)) with (triple M (m + 1) 0).
    rewrite format_triple, <- end_text.
    rewrite (IH (m + 1)%N (acc ++ [triple_text M m 0])) by lia.
    cbn [numbers_from map]. rewrite <- List.app_assoc. reflexivity.
Qed.

End OneMajor.

(** X7.  For a range token whose ends normalise to [M.m1.p1] and [M.m2.p2]
    of one major, the start not above the end and [m2] below
    [MAX_SAFE_INTEGER], the expander returns, under every budget of at
    least [m2 - m1 + 2], the start followed by [M.k.0] for every [k] from
    [m1 + 1] to [m2] and nothing else.  An end with a patch other than 0 is
    therefore not in the list unless it is the start: ["4.4.3-4.4.4"]
    expands to [4.4.3] alone. *)
Theorem range_expansion_within_major (fuel : nat) (versionRange start end_ : string)
    (rest : list string) (M m1 p1 m2 p2 : N) :
  split "-" versionRange = start :: end_ :: rest ->
  normalized start (triple M m1 p1) ->
  normalized end_ (triple M m2 p2) ->
  (m1 < m2 \/ (m1 = m2 /\ p1 <= p2))%N ->
  (m2 < MAX_SAFE_INTEGER)%N ->
  N.to_nat (m2 - m1) + 2 <= fuel ->
  generateSemversInRange fuel versionRange
  = Returns (triple_text M m1 p1
             :: map (fun k => triple_text M k 0)
                    (numbers_from (m1 + 1) (N.to_nat (m2 - m1)))).
Proof.
  intros Hsplit (Hs & _ & Hss) (He & _ & Hes) Hle Hm2 Hfuel.
  rewrite format_triple in Hs, He.
  rewrite (generateSemversInRange_loop _ _ _ _ _ _ _ Hsplit Hs He).
  apply rangeLoop_more_fuel with (fuel := S (S (N.to_nat (m2 - m1))));
    [| lia].
  rewrite rangeLoop_step. unfold gte.
  rewrite (new_SemVer_triple _ _ _ Hes), (new_SemVer_triple _ _ _ Hss).
  cbn [bind].
  assert (Hge : geb (triple M m2 p2) (triple M m1 p1) = true).
  { unfold geb, compare, compareMain, comparePre, triple.
    cbn [major minor patch prerelease]. rewrite N.compare_refl.
    destruct (N.compare_spec m2 m1) as [E | L | G]; try lia; try reflexivity.
    destruct (N.compare_spec p2 p1); try reflexivity. lia. }
  rewrite Hge. unfold inc. rewrite (new_SemVer_triple _ _ _ Hss). cbn [bind].
  rewrite inc_minor_triple, format_triple.
  rewrite (rangeLoop_minors M m2 p2 (triple_text M m2 p2) eq_refl Hes Hm2
             (N.to_nat (m2 - m1)) (m1 + 1)%N ([] ++ [triple_text M m1 p1]))
    by lia.
  reflexivity.
Qed.

Lemma range_expansion_within_major_witness :
  generateSemversInRange 3 "4.4.3-4.4.4" = Returns ["4.4.3"].
Proof.
  apply (range_expansion_within_major 3 "4.4.3-4.4.4" "4.4.3" "4.4.4" [] 4 4 3 4 4);
    try (vm_compute; reflexivity);
    try (repeat split; vm_compute; reflexivity).
  - right. split; [reflexivity | vm_compute; discriminate].
  - vm_compute. repeat constructor.
Defined.

End ExactExpansion.

(* ================================================================= *)
(** ** The browser list parser *)

Module ListParser.
Import JS JSFacts Normalisation Examples.

(** The canonical name of a browser: its entry in [browserNameMap], or the
    name itself. *)
Definition canonicalName (name : string) : string :=
  match lookup name browserNameMap with
  | Some n => n
  | None => name
  end.

(** A token [name version]. *)
Definition token (name version : string) : string := (name ++ " " ++ version)%string.

Lemma split_token (name version : string) :
  lacks " " name -> lacks " " version ->
  split " " (token name version) = [name; version].
Proof.
  intros Hn Hv. unfold token. cbn [append].
  rewrite (split_append " " name version Hn), (split_lacks " " version Hv).
  reflexivity.
Qed.

(** The parser on a list with one more token in front. *)
Lemma parseBrowsersList_cons (fuel : nat) (t : string) (l : list string) :
  parseBrowsersList fuel (t :: l)
  = if equals (nth_error (split " " t) 1) "TP" then parseBrowsersList fuel l
    else
      targets <- targetsOf fuel (nth 0 (split " " t) "") (nth_error (split " " t) 1) ;;
      others <- parseBrowsersList fuel l ;;
      Returns (targets ++ others).
Proof.
  unfold parseBrowsersList. cbn [map filter fst snd].
  destruct (equals (nth_error (split " " t) 1) "TP"); cbn [negb]; [reflexivity |].
  cbn [mapM fst snd].
  destruct (targetsOf fuel (nth 0 (split " " t) "") (nth_error (split " " t) 1));
    cbn [bind]; try reflexivity.
  match goal with
  | |- context [mapM ?f ?xs] => destruct (mapM f xs)
  end; reflexivity.
Qed.

Lemma parseBrowsersList_nil (fuel : nat) : parseBrowsersList fuel [] = Returns [].
Proof. reflexivity. Qed.

Lemma parseBrowsersList_app_bind (fuel : nat) (l1 l2 : list string) :
  parseBrowsersList fuel (l1 ++ l2)
  = (first <- parseBrowsersList fuel l1 ;;
     second <- parseBrowsersList fuel l2 ;;
     Returns (first ++ second)).
Proof.
  induction l1 as [| t l1 IH].
  - rewrite List.app_nil_l, parseBrowsersList_nil. cbn [bind].
    destruct (parseBrowsersList fuel l2); reflexivity.
  - rewrite <- List.app_comm_cons, !parseBrowsersList_cons.
    destruct (equals (nth_error (split " " t) 1) "TP"); [exact IH |].
    rewrite IH.
    destruct (targetsOf fuel (nth 0 (split " " t) "") (nth_error (split " " t) 1));
      cbn [bind]; try reflexivity.
    destruct (parseBrowsersList fuel l1); cbn [bind]; try reflexivity.
    destruct (parseBrowsersList fuel l2); cbn [bind]; try reflexivity.
    rewrite List.app_assoc. reflexivity.
Qed.

(** X8.  [parseBrowsersList] works token by token: the targets of a
    concatenation of two token lists are the targets of the first list
    followed by the targets of the second, and an exception in either is an
    exception of the whole (the first list's exception first). *)
Theorem parseBrowsersList_app (fuel : nat) (l1 l2 : list string) :
  parseBrowsersList fuel (l1 ++ l2)
  = (first <- parseBrowsersList fuel l1 ;;
     second <- parseBrowsersList fuel l2 ;;
     Returns (first ++ second)).
Proof. apply parseBrowsersList_app_bind. Qed.

(** X9.  A token whose version is the marker [TP] contributes nothing:
    removing it from the token list changes neither the targets nor the
    exceptions. *)
Theorem parseBrowsersList_drops_TP (fuel : nat) (name : string)
    (before after : list string) :
  lacks " " name ->
  parseBrowsersList fuel (before ++ token name "TP" :: after)
  = parseBrowsersList fuel (before ++ after).
Proof.
  intro Hn.
  rewrite !parseBrowsersList_app_bind, parseBrowsersList_cons.
  rewrite (split_token name "TP" Hn) by (vm_compute; auto).
  reflexivity.
Qed.

Lemma parseBrowsersList_drops_TP_witness :
  parseBrowsersList 8 (["and_chr 80"] ++ token "safari" "TP" :: ["ie 11"])
  = parseBrowsersList 8 (["and_chr 80"] ++ ["ie 11"]).
Proof.
  apply (parseBrowsersList_drops_TP 8 "safari" ["and_chr 80"] ["ie 11"]).
  vm_compute. auto 10.
Defined.

(** A name and a version that make a token with one target: neither holds
    a space, the name is not one that objects inherit from
    [Object.prototype], and the version is not [TP] and has no hyphen after
    its first character. *)
Definition plain (nv : string * string) : Prop :=
  lacks " " (fst nv) /\ lacks " " (snd nv)
  /\ inherited (fst nv) = false
  /\ snd nv <> "TP" /\ (indexOf (snd nv) "-" <= 0)%Z.

Lemma normalizedName_canonical (name : string) :
  inherited name = false -> normalizedName name = Returns (canonicalName name).
Proof.
  intro H. unfold normalizedName, canonicalName.
  destruct (lookup name browserNameMap); [reflexivity |].
  rewrite H. reflexivity.
Qed.

Lemma targetsOf_plain (fuel : nat) (name version : string) :
  inherited name = false ->
  (indexOf version "-" <= 0)%Z ->
  targetsOf fuel name (Some version) = Returns [mkBrowser (canonicalName name) version].
Proof.
  intros Hname H. unfold targetsOf.
  rewrite (normalizedName_canonical name Hname). cbn [bind].
  destruct (Z.ltb_spec 0 (indexOf version "-")); [lia | reflexivity].
Qed.

Lemma equals_TP (version : string) : version <> "TP" -> equals (Some version) "TP" = false.
Proof.
  intro H. unfold equals. destruct (String.eqb_spec version "TP"); [contradiction | reflexivity].
Qed.

(** X10.  On tokens without ranges and without [TP], whose names are not
    among the property names inherited from [Object.prototype], the parser
    returns one target per token, in the order of the tokens and with
    duplicates kept: the family is the canonical name and the version is
    the text of the token, not normalised.  The iteration budget plays no
    part. *)
Theorem parseBrowsersList_plain (fuel : nat) (pairs : list (string * string)) :
  Forall plain pairs ->
  parseBrowsersList fuel (map (fun nv => token (fst nv) (snd nv)) pairs)
  = Returns (map (fun nv => mkBrowser (canonicalName (fst nv)) (snd nv)) pairs).
Proof.
  induction 1 as [| [name version] pairs (Hn & Hv & Hown & Htp & Hi) _ IH];
    [reflexivity |].
  cbn [map fst snd] in *.
  rewrite parseBrowsersList_cons, (split_token name version Hn Hv).
  cbn [nth_error nth].
  rewrite (equals_TP version Htp), (targetsOf_plain fuel name version Hown Hi), IH.
  reflexivity.
Qed.

Lemma parseBrowsersList_plain_witness :
  parseBrowsersList 0 ["and_chr 80"; "op_mini all"; "chrome 80"; "and_chr 80"]
  = Returns [mkBrowser "Chrome" "80"; mkBrowser "OperaMini" "all";
             mkBrowser "chrome" "80"; mkBrowser "Chrome" "80"].
Proof.
  apply (parseBrowsersList_plain 0
           [("and_chr", "80"); ("op_mini", "all"); ("chrome", "80"); ("and_chr", "80")]).
  repeat constructor; vm_compute; auto 10; discriminate.
Defined.



Section MissingVersion.

Variable UAParser : string -> UA.parsed.
Variable browserslist : option (list string) -> option string -> string -> outcome (list string).
Variable cwd : string.
Variable hostLocale : locale.


End MissingVersion.


Lemma canonical_not_alias (name n : string) :
  lookup name browserNameMap = Some n -> lookup n browserNameMap = None.
Proof.
  intro E. unfold lookup, browserNameMap in E.
  repeat match type of E with
         | (if ?b then _ else _) = _ => destruct b
         end;
    try discriminate; injection E as <-; reflexivity.
Qed.

(** X12.  Canonical names are not aliases: looking a canonical name up in
    [browserNameMap] finds nothing, so canonicalising a name twice is the
    same as canonicalising it once. *)
Theorem canonicalName_idempotent (name : string) :
  (forall n, lookup name browserNameMap = Some n -> lookup n browserNameMap = None)
  /\ canonicalName (canonicalName name) = canonicalName name.
Proof.
  split; [exact (canonical_not_alias name) |].
  unfold canonicalName.
  destruct (lookup name browserNameMap) as [n |] eqn:E.
  - rewrite (canonical_not_alias name n E). reflexivity.
  - rewrite E. reflexivity.
Qed.

End ListParser.

(* ================================================================= *)
(** ** Query normalisation *)

Module QueryNormalisation.
Import JS JSFacts.

Lemma includes_cons (c : ascii) (s sub : string) :
  includes (String c s) sub
  = if String.prefix sub (String c s) then true else includes s sub.
Proof. reflexivity. Qed.

Lemma includes_prefix (s sub : string) :
  includes s sub = false -> String.prefix sub s = false.
Proof.
  destruct s as [| c s].
  - cbn [includes]. destruct (String.prefix sub ""); [discriminate | reflexivity].
  - rewrite includes_cons. destruct (String.prefix sub (String c s));
      [discriminate | reflexivity].
Qed.

Lemma includes_tail (c : ascii) (s sub : string) :
  includes (String c s) sub = false -> includes s sub = false.
Proof.
  rewrite includes_cons. destruct (String.prefix sub (String c s));
    [discriminate | auto].
Qed.

Lemma key_at_none (m : list (string * string)) (s : string) :
  (forall k v, In (k, v) m -> String.prefix k s = false) -> key_at m s = None.
Proof.
  induction m as [| [k v] m IH]; intro H; [reflexivity |].
  cbn [key_at]. rewrite (H k v (or_introl eq_refl)).
  apply IH. intros k' v' Hin. apply (H k' v'). right. exact Hin.
Qed.

(** X13.  A query in which no alias of [browserNameMap] occurs, at any
    position, is returned unchanged by [normalizeQuery]. *)
Theorem normalizeQuery_without_alias (query : string) :
  (forall k v, In (k, v) browserNameMap -> includes query k = false) ->
  normalizeQuery query = query.
Proof.
  induction query as [| c q IH]; intro H.
  - reflexivity.
  - cbn [normalizeQuery].
    rewrite key_at_none
      by (intros k v Hin; apply includes_prefix, (H k v Hin)).
    rewrite IH; [reflexivity |].
    intros k v Hin. apply (includes_tail c), (H k v Hin).
Qed.

Lemma normalizeQuery_without_alias_witness :
  normalizeQuery "last 2 Chrome versions" = "last 2 Chrome versions".
Proof.
  apply (normalizeQuery_without_alias "last 2 Chrome versions").
  intros k v Hin. unfold browserNameMap in Hin.
  repeat (destruct Hin as [Hin | Hin];
          [injection Hin as <- <-; vm_compute; reflexivity |]).
  destruct Hin.
Defined.

Lemma prefix_empty (s : string) : String.prefix "" s = true.
Proof. destruct s; reflexivity. Qed.

Lemma drop_append (k rest : string) : drop (String.length k) (k ++ rest) = rest.
Proof. induction k as [| c k IH]; [reflexivity | exact IH]. Qed.

Lemma normalizeQuery_unfold (query : string) :
  normalizeQuery query
  = match key_at browserNameMap query with
    | Some (k, v) => (v ++ drop (String.length k) query)%string
    | None => match query with
              | EmptyString => EmptyString
              | String c q => String c (normalizeQuery q)
              end
    end.
Proof. destruct query; reflexivity. Qed.

(** The alternation finds an alias at the start of the text. *)
Lemma key_at_leading (k v rest : string) :
  In (k, v) browserNameMap ->
  (k = "ie" -> String.prefix "_mob" rest = false) ->
  key_at browserNameMap (k ++ rest) = Some (k, v).
Proof.
  intros Hin Hie. unfold browserNameMap in Hin.
  repeat (destruct Hin as [Hin | Hin];
          [injection Hin as <- <-;
           unfold browserNameMap; cbn [key_at append]; cbn;
           rewrite ?prefix_empty, ?(Hie eq_refl); reflexivity |]).
  destruct Hin.
Qed.

(** X14.  An alias at the start of a query is replaced by its canonical
    name, and the rest of the query is kept as it is, later aliases
    included.  The one exception is in the table's order: [ie] followed by
    [_mob] is the alias [ie_mob]. *)
Theorem normalizeQuery_leading_alias (k v rest : string) :
  In (k, v) browserNameMap ->
  (k = "ie" -> String.prefix "_mob" rest = false) ->
  normalizeQuery (k ++ rest) = (v ++ rest)%string.
Proof.
  intros Hin Hie.
  rewrite normalizeQuery_unfold, (key_at_leading k v rest Hin Hie), drop_append.
  reflexivity.
Qed.

Lemma normalizeQuery_leading_alias_witness :
  normalizeQuery ("ie" ++ " 11, ff 20") = ("Explorer" ++ " 11, ff 20")%string.
Proof.
  apply (normalizeQuery_leading_alias "ie" "Explorer" " 11, ff 20").
  - unfold browserNameMap. do 6 right. left. reflexivity.
  - intros _. reflexivity.
Defined.

End QueryNormalisation.

(* ================================================================= *)
(** ** The pre-stripping of the user agent *)

Module PreStripping.
Import JS JSFacts QueryNormalisation Examples.

Lemma literal_absent (lit s : string) :
  includes s lit = false -> literal lit s = None.
Proof.
  intro H. unfold literal. rewrite (includes_prefix s lit H). reflexivity.
Qed.

Lemma remove_first_absent (re : string -> option string) (s : string) :
  (forall t, (exists n, t = drop n s) -> re t = None) ->
  remove_first re s = s.
Proof.
  induction s as [| c s IH]; intro H.
  - cbn [remove_first]. rewrite (H "") by (exists 0; reflexivity). reflexivity.
  - cbn [remove_first]. rewrite (H (String c s)) by (exists 0; reflexivity).
    rewrite IH; [reflexivity |].
    intros t (n & ->). apply H. exists (S n). reflexivity.
Qed.

Lemma remove_all_absent (re : string -> option string) (s : string) :
  (forall t, (exists n, t = drop n s) -> re t = None) ->
  remove_all re s = s.
Proof.
  unfold remove_all. induction s as [| c s IH]; intro H; [reflexivity |].
  cbn [remove_all_from]. rewrite (H (String c s)) by (exists 0; reflexivity).
  rewrite IH; [reflexivity |].
  intros t (n & ->). apply H. exists (S n). reflexivity.
Qed.

(** A text that does not occur in [s] occurs in none of its suffixes. *)
Lemma includes_drop (lit s : string) (n : nat) :
  includes s lit = false -> includes (drop n s) lit = false.
Proof.
  revert s. induction n as [| n IH]; intros s H; [exact H |].
  destruct s as [| c s]; [exact H |].
  cbn [drop]. apply IH, (includes_tail c), H.
Qed.

(** X15.  A user agent that holds none of the markers [CriOS/], [OPiOS/],
    [YaBrowser/], [FB_IAB] and [FBAN/FBIOS] reaches the tokenizer
    unchanged. *)
Theorem strippedUA_without_markers (uaString : string) :
  includes uaString "CriOS/" = false ->
  includes uaString "OPiOS/" = false ->
  includes uaString "YaBrowser/" = false ->
  includes uaString "FB_IAB" = false ->
  includes uaString "FBAN/FBIOS" = false ->
  strippedUA uaString = uaString.
Proof.
  intros H1 H2 H3 H4 H5. unfold strippedUA.
  rewrite (remove_first_absent CriOS_OPiOS uaString).
  2: { intros t (n & ->). unfold CriOS_OPiOS.
       rewrite !literal_absent by (apply includes_drop; assumption).
       reflexivity. }
  rewrite (remove_all_absent YaBrowser uaString).
  2: { intros t (n & ->). unfold YaBrowser.
       rewrite literal_absent by (apply includes_drop; assumption).
       reflexivity. }
  rewrite (remove_all_absent (literal "FB_IAB") uaString)
    by (intros t (n & ->); apply literal_absent, includes_drop; assumption).
  apply remove_all_absent.
  intros t (n & ->). apply literal_absent, includes_drop. assumption.
Qed.

Lemma strippedUA_without_markers_witness : strippedUA safari_on_Mac = safari_on_Mac.
Proof.
  apply (strippedUA_without_markers safari_on_Mac); vm_compute; reflexivity.
Defined.

End PreStripping.

(* ================================================================= *)
(** ** Versions that are not versions *)

Module InvalidVersions.
Import JS semver SemverFacts Comparison.

(** X16.  A candidate that [semverify] leaves an invalid version (a
    negative component, say) is handled in two ways: without
    [allowHigherVersions] the comparison returns [false] against every
    reference that normalises; with [allowHigherVersions] it raises.  With
    [allowHigherVersions] an invalid reference (the version [all] of
    [op_mini all], say) raises as well. *)
Theorem invalid_version_behaviour :
  (forall (versionA versionB semverifiedA : string) (options : Options) (b : SemVer),
     semverify (Some versionA) = Returns semverifiedA ->
     new_SemVer false semverifiedA = Throws ->
     normalized versionB b ->
     allowHigherVersions options = false ->
     compareBrowserSemvers versionA versionB options = Returns false)
  /\ (forall (versionA versionB semverifiedA semverifiedB : string) (options : Options),
        semverify (Some versionA) = Returns semverifiedA ->
        semverify (Some versionB) = Returns semverifiedB ->
        new_SemVer false semverifiedA = Throws ->
        allowHigherVersions options = true ->
        compareBrowserSemvers versionA versionB options = Throws)
  /\ (forall (versionA versionB semverifiedA semverifiedB : string) (options : Options)
             (a : SemVer),
        semverify (Some versionA) = Returns semverifiedA ->
        semverify (Some versionB) = Returns semverifiedB ->
        new_SemVer false semverifiedA = Returns a ->
        new_SemVer false semverifiedB = Throws ->
        allowHigherVersions options = true ->
        compareBrowserSemvers versionA versionB options = Throws).
Proof.
  split; [| split].
  - intros versionA versionB sA options b HA Hbad (HB & Hpb & Hsb) Hh.
    destruct b as [b1 b2 b3 pb]. cbn [prerelease] in Hpb. subst pb.
    change (mkSemVer b1 b2 b3 []) with (triple b1 b2 b3) in *.
    rewrite format_triple in HB.
    unfold compareBrowserSemvers. rewrite HA, HB, Hh. cbn [bind].
    assert (Hsat : forall mk range,
               range_form range = (mk, triple_text b1 b2 b3) ->
               String.length range <= S (String.length (triple_text b1 b2 b3)) ->
               satisfies sA range = Returns false).
    { intros mk range Hf Hl. unfold satisfies.
      rewrite (new_Range_of_form mk range b1 b2 b3 Hf Hl Hsb). cbn [bind].
      destruct (forallb (fun c => safe (snd c)) (mk (triple b1 b2 b3)));
        [rewrite Hbad |]; reflexivity. }
    destruct (ignoreMinor options); [| destruct (ignorePatch options)];
      eapply Hsat; auto using range_form_triple; reflexivity.
  - intros versionA versionB sA sB options HA HB Hbad Hh.
    unfold compareBrowserSemvers. rewrite HA, HB, Hh. cbn [bind].
    unfold gte. rewrite Hbad. reflexivity.
  - intros versionA versionB sA sB options a HA HB Ha Hbad Hh.
    unfold compareBrowserSemvers. rewrite HA, HB, Hh. cbn [bind].
    unfold gte. rewrite Ha, Hbad. reflexivity.
Qed.

Lemma invalid_version_behaviour_witness :
  compareBrowserSemvers "-5.0.0" "10.0.0" (mkOptions false true false) = Returns false
  /\ compareBrowserSemvers "-5.0.0" "10.0.0" (mkOptions false true true) = Throws
  /\ compareBrowserSemvers "10.0.0" "all" (mkOptions false true true) = Throws.
Proof.
  destruct invalid_version_behaviour as (H1 & H2 & H3).
  split; [| split].
  - apply (H1 "-5.0.0" "10.0.0" "-5.0.0" (mkOptions false true false) (triple 10 0 0));
      try reflexivity; repeat split; vm_compute; reflexivity.
  - apply (H2 "-5.0.0" "10.0.0" "-5.0.0" "10.0.0" (mkOptions false true true));
      vm_compute; reflexivity.
  - apply (H3 "10.0.0" "all" "10.0.0" "all.0.0" (mkOptions false true true)
              (triple 10 0 0)); vm_compute; reflexivity.
Defined.

End InvalidVersions.

(* ================================================================= *)
(** ** The disjunction over the targets *)

Module Disjunction.
Import JS Examples.

Lemma some_app {A : Type} (f : A -> outcome bool) (l1 l2 : list A) :
  some f (l1 ++ l2)
  = (found <- some f l1 ;; if found : bool then Returns true else some f l2).
Proof.
  induction l1 as [| x l1 IH]; [reflexivity |].
  rewrite <- List.app_comm_cons. cbn [some].
  destruct (f x) as [[|] | | |]; cbn [bind]; try reflexivity.
  exact IH.
Qed.

(** X17.  The targets are tried from left to right and the search stops at
    the first match or the first exception: over a concatenation the
    result is that of the first list when it is a match or an exception,
    and that of the second list otherwise.  Repeating the target list
    changes nothing. *)
Theorem matchesAny_app (hostLocale : locale) (l1 l2 : list Browser)
    (resolved : Browser) (options : Options) :
  matchesAny hostLocale (l1 ++ l2) resolved options
  = (found <- matchesAny hostLocale l1 resolved options ;;
     if found : bool then Returns true else matchesAny hostLocale l2 resolved options)
  /\ matchesAny hostLocale (l1 ++ l1) resolved options
     = matchesAny hostLocale l1 resolved options.
Proof.
  unfold matchesAny. split; [apply some_app |].
  rewrite some_app.
  destruct (some (matchesTarget hostLocale resolved options) l1) as [[|] | | |];
    reflexivity.
Qed.

End Disjunction.

(* ================================================================= *)
(** ** More on the resolver *)

Module ResolverMore.
Import JS Examples.

Section Family.

Variable UAParser : string -> UA.parsed.

(** X18.  The resolved family is empty exactly when the tokenizer reports
    no browser name for the pre-stripped user agent: every rule that
    applies to a reported name gives a non-empty family. *)
Theorem resolveUserAgent_empty_family (uaString : string) :
  family (resolveUserAgent UAParser uaString) = ""
  <-> truthy (UA.name (UA.browser (UAParser (strippedUA uaString)))) = false.
Proof.
  unfold resolveUserAgent, truthy.
  destruct (UA.name (UA.browser (UAParser (strippedUA uaString)))) as [name |];
    [| split; reflexivity].
  destruct (String.eqb_spec name "") as [E | E]; [split; reflexivity |].
  cbn [negb].
  repeat match goal with
         | |- context [if ?b then _ else _] => destruct b
         end;
    cbn [family]; split; intro H; try discriminate; contradiction.
Qed.

End Family.

End ResolverMore.

(* ================================================================= *)
(** ** How the comparison options nest *)

Module PolicyOrder.
Import JS semver SemverFacts Comparison.

Lemma compare_true_iff (versionA versionB : string) (options : Options) (a b : SemVer) :
  normalized versionA a -> normalized versionB b ->
  (compareBrowserSemvers versionA versionB options = Returns true
   <-> (if allowHigherVersions options then geb a b
        else if ignoreMinor options then in_range caret a b
        else if ignorePatch options then in_range tilde a b
        else in_range exactly a b) = true).
Proof.
  intros HA HB.
  rewrite (compareBrowserSemvers_normalized _ _ _ a b HA HB).
  split; [intro H; injection H as H; exact H | intros ->; reflexivity].
Qed.

(** X19.  For a reference that is not [0.0.p] (and whose components can
    still be incremented) the four policies nest: a candidate accepted
    with no option set is accepted with [ignorePatch], one accepted with
    [ignorePatch] is accepted with [ignoreMinor], and one accepted with
    [ignoreMinor] is accepted with [allowHigherVersions]. *)
Theorem comparison_options_nest (versionA versionB : string) (a b : SemVer)
    (ignorePatch' ignoreMinor' ignorePatch'' : bool) :
  normalized versionA a -> normalized versionB b -> below_max b ->
  (major b <> 0 \/ minor b <> 0)%N ->
  (compareBrowserSemvers versionA versionB (mkOptions false false false) = Returns true ->
   compareBrowserSemvers versionA versionB (mkOptions false true false) = Returns true)
  /\ (compareBrowserSemvers versionA versionB (mkOptions false true false) = Returns true ->
      compareBrowserSemvers versionA versionB (mkOptions true ignorePatch' false)
      = Returns true)
  /\ (compareBrowserSemvers versionA versionB (mkOptions true ignorePatch' false)
      = Returns true ->
      compareBrowserSemvers versionA versionB (mkOptions ignoreMinor' ignorePatch'' true)
      = Returns true).
Proof.
  intros HA HB Hmax Hnz.
  pose proof HA as (_ & Hpa & _). pose proof HB as (_ & Hpb & Hsb).
  rewrite !(compare_true_iff versionA versionB _ a b HA HB).
  cbn [allowHigherVersions ignoreMinor ignorePatch].
  rewrite (in_range_exactly a b Hpa Hpb Hsb), (in_range_tilde a b Hpa Hpb Hmax),
    (in_range_caret a b Hpa Hpb Hmax), (geb_version_ge a b Hpa Hpb).
  unfold same_version, version_ge, same_caret_prefix, same_version.
  repeat split; intros; lia.
Qed.

Lemma comparison_options_nest_witness :
  (compareBrowserSemvers "10.1.5" "10.1.5" (mkOptions false false false) = Returns true ->
   compareBrowserSemvers "10.1.5" "10.1.5" (mkOptions false true false) = Returns true)
  /\ (compareBrowserSemvers "10.1.5" "10.1.5" (mkOptions false true false) = Returns true ->
      compareBrowserSemvers "10.1.5" "10.1.5" (mkOptions true true false)
      = Returns true)
  /\ (compareBrowserSemvers "10.1.5" "10.1.5" (mkOptions true true false)
      = Returns true ->
      compareBrowserSemvers "10.1.5" "10.1.5" (mkOptions false true true)
      = Returns true).
Proof.
  apply (comparison_options_nest "10.1.5" "10.1.5" (triple 10 1 5) (triple 10 1 5)
           true false true);
    try (repeat split; vm_compute; reflexivity).
  left. discriminate.
Defined.

End PolicyOrder.

(* ================================================================= *)
(** ** Ranges the expander does not expand *)

Module BadRanges.
Import JS JSFacts semver SemverFacts Comparison RangeExpansion ExactExpansion.

Lemma rangeLoop_higher_major (M1 M2 m2 p2 : N) (fuel : nat) :
  (M1 < M2)%N -> safe (triple M2 m2 p2) = true ->
  forall (m : N) (acc versions : list string),
    rangeLoop fuel (triple_text M2 m2 p2) (Some (triple_text M1 m 0)) acc
    <> Returns versions.
Proof.
  intros HM Hs.
  induction fuel as [| fuel IH]; intros m acc versions; [discriminate |].
  rewrite rangeLoop_step. unfold gte.
  rewrite (new_SemVer_triple _ _ _ Hs). cbn [bind].
  destruct (new_SemVer_triple_inv M1 m 0) as [Hcur | Hcur]; rewrite Hcur;
    cbn [bind]; [| discriminate].
  assert (Hge : geb (triple M2 m2 p2) (triple M1 m 0) = true).
  { unfold geb, compare, compareMain, triple. cbn [major minor patch].
    destruct (N.compare_spec M2 M1); try lia; reflexivity. }
  rewrite Hge. unfold inc. rewrite Hcur. cbn [bind].
  rewrite inc_minor_triple, format_triple. apply IH.
Qed.

(** X20.  A range token whose start normalises to a lower major than its
    end is never expanded: under no iteration budget does
    [generateSemversInRange] return a list for it, because incrementing the
    minor never reaches the major of the end. *)
Theorem range_across_majors_never_returns (versionRange start end_ : string)
    (rest : list string) (M1 m1 p1 M2 m2 p2 : N) :
  split "-" versionRange = start :: end_ :: rest ->
  normalized start (triple M1 m1 p1) ->
  normalized end_ (triple M2 m2 p2) ->
  (M1 < M2)%N ->
  forall fuel versions, generateSemversInRange fuel versionRange <> Returns versions.
Proof.
  intros Hsplit (Hs & _ & Hss) (He & _ & Hes) HM fuel versions.
  rewrite format_triple in Hs, He.
  rewrite (generateSemversInRange_loop _ _ _ _ _ _ _ Hsplit Hs He).
  destruct fuel as [| fuel]; [discriminate |].
  rewrite rangeLoop_step. unfold gte.
  rewrite (new_SemVer_triple _ _ _ Hes), (new_SemVer_triple _ _ _ Hss).
  cbn [bind].
  assert (Hge : geb (triple M2 m2 p2) (triple M1 m1 p1) = true).
  { unfold geb, compare, compareMain, triple. cbn [major minor patch].
    destruct (N.compare_spec M2 M1); try lia; reflexivity. }
  rewrite Hge. unfold inc. rewrite (new_SemVer_triple _ _ _ Hss). cbn [bind].
  rewrite inc_minor_triple, format_triple.
  apply rangeLoop_higher_major; assumption.
Qed.

Lemma range_across_majors_never_returns_witness :
  ~ (exists fuel versions, generateSemversInRange fuel "12.2-13.1" = Returns versions).
Proof.
  intros (fuel & versions & H).
  refine (range_across_majors_never_returns "12.2-13.1" "12.2" "13.1" [] 12 2 0 13 1 0
            _ _ _ _ fuel versions H);
    repeat split; vm_compute; reflexivity.
Defined.

(** X21.  A range token with an end or a start that does not convert to a
    valid version makes the expander raise, under every budget of one
    evaluation or more: [semver.gte] is the first to read both. *)
Theorem range_with_invalid_end_raises (fuel : nat) (versionRange start end_ : string)
    (rest : list string) (startSemver endSemver : string) :
  split "-" versionRange = start :: end_ :: rest ->
  semverify (Some start) = Returns startSemver ->
  semverify (Some end_) = Returns endSemver ->
  new_SemVer false endSemver = Throws
  \/ ((exists endv, new_SemVer false endSemver = Returns endv)
      /\ new_SemVer false startSemver = Throws) ->
  generateSemversInRange (S fuel) versionRange = Throws.
Proof.
  intros Hsplit Hs He Hbad.
  rewrite (generateSemversInRange_loop _ _ _ _ _ _ _ Hsplit Hs He).
  rewrite rangeLoop_step. unfold gte.
  destruct Hbad as [Hbad | [(endv & Hend) Hbad]].
  - rewrite Hbad. reflexivity.
  - rewrite Hend, Hbad. reflexivity.
Qed.

Lemma range_with_invalid_end_raises_witness :
  generateSemversInRange 1 "10.0-all" = Throws.
Proof.
  apply (range_with_invalid_end_raises 0 "10.0-all" "10.0" "all" [] "10.0.0" "all.0.0");
    try (vm_compute; reflexivity).
  left. vm_compute. reflexivity.
Defined.

End BadRanges.
